(** * Privacy Badger (Firefox): content policy and per-window settings ledger

    A shallow embedding of [lib/contentPolicy.js], [lib/ui.js] and
    [lib/utils.js], and the properties of the policy decision engine and the
    settings ledger stated in the specification.

    Conventions of the embedding:
    - the simple-storage objects ([storage.userRed], ...) are only ever
      queried with [key in obj], so each is the finite set of the strings
      for which that test holds; [__proto__] is one of them in every
      object;
    - an assignment [obj[key] = value] of a string to the property
      [__proto__] stores nothing;
    - the [WeakMap] [settingsMap] is a finite map keyed by the identity of
      the window object;
    - a JavaScript function that mutates the add-on's state or may raise is
      a computation in the monad [M] (state passing plus exceptions);
    - [console.log] calls are not modelled. *)

From stdpp Require Import base option list gmap strings.
From Stdlib Require Import ZArith Lia.

#[local] Set Warnings "-clear-no-such-hyp".

Open Scope string_scope.
Open Scope list_scope.

(** ** JavaScript values that occur in the modelled code *)

(** An [nsIURI], with the three attributes the add-on reads. *)
Record nsIURI := mkURI {
  scheme : string;
  host : string;
  spec : string
}.

(** The top window of a window hierarchy: its identity as a [WeakMap] key
    and [location.href], [None] when [location] or [href] is missing. *)
Record TopWindow := mkTop {
  top_id : positive;
  top_href : option string
}.

(** An object used as [window]: its identity and its [top] property
    ([None] when the object has no [top], e.g. a channel returned by
    [QueryInterface]). *)
Record Window := mkWin {
  win_id : positive;
  win_top : option TopWindow
}.

(** A [window] argument: [null]/[undefined], or an object. *)
Inductive WinRef :=
| WNull
| WObject (w : Window).

(** Values stored in a settings table: a decision tag, or the [true] of
    the [{cleared: true}] marker. *)
Inductive JSVal :=
| JStr (s : string)
| JTrue.

(** [nsIContentPolicy.ACCEPT] and [nsIContentPolicy.REJECT_REQUEST]. *)
Inductive Verdict := ACCEPT | REJECT.

(** [nsIContentPolicy.TYPE_DOCUMENT] and
    [nsIWebProgressListener.LOCATION_CHANGE_SAME_DOCUMENT]. *)
Definition TYPE_DOCUMENT : Z := 6.
Definition LOCATION_CHANGE_SAME_DOCUMENT : Z := 1.

(** An nsIChannel handle; only passed on to the platform. *)
Definition Channel := positive.

(** The context node handed to [shouldLoad], by the case
    [getWindowForContext] distinguishes. *)
Inductive LoadContext :=
| CtxWindow (w : Window)
    (* aContext instanceof Ci.nsIDOMWindow *)
| CtxNode (ownerDocumentView : option WinRef) (defaultView : WinRef)
    (* aContext instanceof Ci.nsIDOMNode; [ownerDocumentView] is
       [ownerDocument.defaultView] when [ownerDocument] is set *)
| CtxOther (queried : option Window).
    (* neither: the result of QueryInterface(nsIHttpChannel), [None] when
       it raises *)

Global Instance JSVal_eq_dec : EqDecision JSVal.
Proof. solve_decision. Defined.
Global Instance Verdict_eq_dec : EqDecision Verdict.
Proof. solve_decision. Defined.
Global Instance TopWindow_eq_dec : EqDecision TopWindow.
Proof. solve_decision. Defined.
Global Instance Window_eq_dec : EqDecision Window.
Proof. solve_decision. Defined.
Global Instance WinRef_eq_dec : EqDecision WinRef.
Proof. solve_decision. Defined.

(** ** The add-on's state *)

(** [require("sdk/simple-storage").storage]: for each rule list, the
    names other than [__proto__] that the object answers [in] for. *)
Record Storage := mkStorage {
  preloads_names : gset string;
  blockedOrigins_names : gset string;
  userRed_names : gset string;
  userYellow_names : gset string;
  userGreen_names : gset string
}.

(** The rule lists as the policy reads them: [key in storage.userRed]
    holds for the names above and for [__proto__]. *)
Definition preloads (st : Storage) : gset string :=
  {["__proto__"]} ∪ preloads_names st.
Definition blockedOrigins (st : Storage) : gset string :=
  {["__proto__"]} ∪ blockedOrigins_names st.
Definition userRed (st : Storage) : gset string :=
  {["__proto__"]} ∪ userRed_names st.
Definition userYellow (st : Storage) : gset string :=
  {["__proto__"]} ∪ userYellow_names st.
Definition userGreen (st : Storage) : gset string :=
  {["__proto__"]} ∪ userGreen_names st.

(** An [update-settings] event: [emit(settingsMap, "update-settings", msg,
    window, origin)]. *)
Record Event := mkEvent {
  ev_msg : string;
  ev_win : WinRef;
  ev_origin : string
}.

(** The mutable state: the rule lists, the [settingsMap] ledger, the staged
    edits [changedSettings] (a JS object, kept as the list of its properties
    in the order [for ... in] enumerates them), and three traces of calls to
    collaborators: events emitted, hosts passed to
    [cookieUtils.clobberCookie], and the number of tab reloads. *)
Record World := mkWorld {
  storage : Storage;
  settingsMap : gmap positive (gmap string JSVal);
  changedSettings : list (string * string);
  emitted : list Event;
  clobbered : list string;
  reloads : nat
}.

Definition set_storage (f : Storage → Storage) (w : World) : World :=
  mkWorld (f (storage w)) (settingsMap w) (changedSettings w)
          (emitted w) (clobbered w) (reloads w).
Definition set_settingsMap
    (f : gmap positive (gmap string JSVal) → gmap positive (gmap string JSVal))
    (w : World) : World :=
  mkWorld (storage w) (f (settingsMap w)) (changedSettings w)
          (emitted w) (clobbered w) (reloads w).
Definition set_changedSettings
    (f : list (string * string) → list (string * string)) (w : World) : World :=
  mkWorld (storage w) (settingsMap w) (f (changedSettings w))
          (emitted w) (clobbered w) (reloads w).
Definition set_emitted (f : list Event → list Event) (w : World) : World :=
  mkWorld (storage w) (settingsMap w) (changedSettings w)
          (f (emitted w)) (clobbered w) (reloads w).
Definition set_clobbered (f : list string → list string) (w : World) : World :=
  mkWorld (storage w) (settingsMap w) (changedSettings w)
          (emitted w) (f (clobbered w)) (reloads w).
Definition set_reloads (f : nat → nat) (w : World) : World :=
  mkWorld (storage w) (settingsMap w) (changedSettings w)
          (emitted w) (clobbered w) (f (reloads w)).

(** ** Computations: state passing with exceptions *)

Inductive Exn :=
| TypeError        (* property access on null/undefined *)
| PlatformError.   (* an exception raised by an XPCOM service *)

Inductive Res (A : Type) :=
| Ok (a : A)
| Throw (e : Exn).
Arguments Ok {A} a.
Arguments Throw {A} e.

Definition M (A : Type) : Type := World → World * Res A.

Definition ret {A} (a : A) : M A := fun w => (w, Ok a).
Definition bind {A B} (c : M A) (k : A → M B) : M B :=
  fun w => match c w with
           | (w', Ok a) => k a w'
           | (w', Throw e) => (w', Throw e)
           end.
Definition gets {A} (f : World → A) : M A := fun w => (w, Ok (f w)).
Definition modify (f : World → World) : M unit := fun w => (f w, Ok tt).
Definition liftRes {A} (r : Res A) : M A := fun w => (w, r).

Notation "x <- c ;; k" := (bind c (fun x => k))
  (at level 100, c at next level, right associativity).
Notation "c ;;; k" := (bind c (fun _ => k))
  (at level 100, right associativity).

(** JavaScript's short-circuit [a || b] on two boolean computations. *)
Definition orM (a b : M bool) : M bool :=
  x <- a ;; if x then ret true else b.

(** ** The platform services the add-on calls *)

(** [makeURI] is [ABPUtils.makeURI] of [lib/abp/utils.js] ([None]: the
    string is not a URI); the others are methods of [mozIThirdPartyUtil],
    where [None] stands for a raised exception. [getBaseDomain] is taken
    on URIs for which the lookup answers. *)
Class Platform := {
  makeURI : string → option nsIURI;
  tpu_isThirdPartyURI : option nsIURI → option nsIURI → option bool;
  tpu_isThirdPartyChannel : Channel → option bool;
  getBaseDomain : nsIURI → string
}.

(** [lib/userStorage.js], as called by [handleNewSettings]. *)
Class UserStorage := {
  clearOrigin : string → Storage → Storage;
  addRed : string → Storage → Storage;
  addYellow : string → Storage → Storage;
  addGreen : string → Storage → Storage
}.

(** ** lib/utils.js *)

Section Utils.
Context `{Platform}.

(** [getWindowForContext(aContext)]. *)
Definition getWindowForContext (aContext : LoadContext) : WinRef :=
  match aContext with
  | CtxWindow w => WObject w
  | CtxNode (Some view) _ => view
  | CtxNode None defaultView => defaultView
  | CtxOther (Some chan) => WObject chan
  | CtxOther None => WNull
  end.

(** [node ? utils.getWindowForContext(node) : null], the first statement
    of [shouldLoad]. *)
Definition contextWindow (node : option LoadContext) : WinRef :=
  match node with
  | Some n => getWindowForContext n
  | None => WNull
  end.

(** [isThirdPartyURI(uri, docUri)]: no handler of its own, an exception
    of the platform comparison propagates. *)
Definition isThirdPartyURI (uri docUri : string) : Res bool :=
  match tpu_isThirdPartyURI (makeURI uri) (makeURI docUri) with
  | Some b => Ok b
  | None => Throw PlatformError
  end.

(** [isThirdPartyChannel(channel)]: [try { return ... } catch(e)
    { return false; }]. *)
Definition isThirdPartyChannel (channel : Channel) : bool :=
  match tpu_isThirdPartyChannel channel with
  | Some b => b
  | None => false
  end.
End Utils.

(** ** lib/ui.js: the settings ledger *)

(** The table [{cleared: true}] of [clearSettings]. *)
Definition cleared_marker : gmap string JSVal := {[ "cleared" := JTrue ]}.

(** [setting[key] = msg] on a table, for a string [msg]. *)
Definition table_set (key msg : string) (setting : gmap string JSVal)
    : gmap string JSVal :=
  if decide (key = "__proto__") then setting
  else <[key := JStr msg]> setting.

(** [updateSettingsListener(msg, aWin, aOrigin)]. When [aWin.top] is
    missing, the [WeakMap] raises [TypeError] on the key that is no
    object, and the map is left as it was. *)
Definition updateSettingsListener (msg : string) (aWin : WinRef)
    (aOrigin : string) : M unit :=
  match aWin with
  | WNull => ret tt
  | WObject win =>
      if decide (aOrigin = "") then ret tt
      else match win_top win with
           | None => liftRes (Throw TypeError)
           | Some topWin =>
               modify (set_settingsMap (fun m =>
                 let setting := default ∅ (m !! top_id topWin) in
                 <[top_id topWin := table_set aOrigin msg setting]> m))
           end
  end.

(** A listener called by [emit] of sdk/event/core: what it raises is
    caught and reported, and [emit] returns. *)
Definition listener_call (listener : M unit) : M unit :=
  fun w => match listener w with
           | (w', Ok _) => (w', Ok tt)
           | (w', Throw _) => (w', Ok tt)
           end.

(** [emit(settingsMap, "update-settings", msg, window, host)]: the event is
    recorded in the trace and delivered to the one registered listener. *)
Definition emit_update_settings (msg : string) (window : WinRef)
    (host : string) : M unit :=
  modify (set_emitted (fun l => l ++ [mkEvent msg window host])) ;;;
  listener_call (updateSettingsListener msg window host).

(** [clearSettingsListener(aWin)]. *)
Definition clearSettingsListener (aWin : Window) : M unit :=
  modify (set_settingsMap (delete (win_id aWin))).

(** [PBListener.onLocationChange], with [win = aProgress.DOMWindow]. *)
Definition onLocationChange (aFlags : Z) (win : Window) : M unit :=
  if (aFlags =? 0)%Z || negb (aFlags =? LOCATION_CHANGE_SAME_DOCUMENT)%Z
  then clearSettingsListener win
  else ret tt.

(** [getCurrentSettings()], with the window
    [utils.getMostRecentContentWindow()] returns. *)
Definition getCurrentSettings (topContentWindow : Window)
    : M (gmap string JSVal) :=
  gets (fun w => default ∅ (settingsMap w !! win_id topContentWindow)).

(** A property written into a JS object kept in enumeration order: an
    existing property keeps its place, a new one goes last. (An engine
    that enumerates array indices first places a host name like [10]
    elsewhere; no statement below depends on the place.) *)
Fixpoint obj_put (k v : string) (o : list (string * string))
    : list (string * string) :=
  match o with
  | [] => [(k, v)]
  | (k', v') :: o' =>
      if decide (k' = k) then (k, v) :: o' else (k', v') :: obj_put k v o'
  end.

(** [obj[k] = v] for a string [v]: nothing is stored for [__proto__]. *)
Definition obj_set (k v : string) (o : list (string * string))
    : list (string * string) :=
  if decide (k = "__proto__") then o else obj_put k v o.

(** [handleUpdate(data)], and the handler of the panel's [reset] message. *)
Definition handleUpdate (origin action : string) : M unit :=
  modify (set_changedSettings (obj_set origin action)).
Definition handleReset (origin : string) : M unit :=
  modify (set_changedSettings (obj_set origin "reset")).

Section Commit.
Context `{UserStorage}.

(** The [switch] of [handleNewSettings]; it has no [default] case. *)
Definition applySetting (origin action : string) : Storage → Storage :=
  if decide (action = "reset") then clearOrigin origin
  else if decide (action = "block") then addRed origin
  else if decide (action = "cookieblock") then addYellow origin
  else if decide (action = "noaction") then addGreen origin
  else id.

Definition applySettings (settings : list (string * string))
    (st : Storage) : Storage :=
  foldl (fun st oa => applySetting oa.1 oa.2 st) st settings.

(** [handleNewSettings(settings)]. *)
Definition handleNewSettings (settings : list (string * string)) : M bool :=
  if decide (length settings = 0) then ret false
  else modify (set_storage (applySettings settings)) ;;;
       modify (set_reloads S) ;;;
       ret true.

(** The panel's [onHide]. *)
Definition onHide : M unit :=
  settings <- gets changedSettings ;;
  handleNewSettings settings ;;;
  modify (set_changedSettings (fun _ => [])).
End Commit.

(** The commit step in the specification's words, to compare
    [handleNewSettings] with: for each staged [(origin, tag)], [reset]
    removes the origin from all user sets, [block] adds it to [userRed],
    [cookieblock] to [userYellow], [noaction] to [userGreen]; an entry
    with another tag is skipped, and the edits after it are applied. *)
Section Commit_in_the_spec.
Context `{UserStorage}.

Inductive SpecCommit : list (string * string) → Storage → Storage → Prop :=
| commit_done st :
    SpecCommit [] st st
| commit_reset origin edits st st' :
    SpecCommit edits (clearOrigin origin st) st' →
    SpecCommit ((origin, "reset") :: edits) st st'
| commit_block origin edits st st' :
    SpecCommit edits (addRed origin st) st' →
    SpecCommit ((origin, "block") :: edits) st st'
| commit_cookieblock origin edits st st' :
    SpecCommit edits (addYellow origin st) st' →
    SpecCommit ((origin, "cookieblock") :: edits) st st'
| commit_noaction origin edits st st' :
    SpecCommit edits (addGreen origin st) st' →
    SpecCommit ((origin, "noaction") :: edits) st st'
| commit_skip origin tag edits st st' :
    tag ∉ ["reset"; "block"; "cookieblock"; "noaction"] →
    SpecCommit edits st st' →
    SpecCommit ((origin, tag) :: edits) st st'.
End Commit_in_the_spec.

(** ** lib/contentPolicy.js *)

Definition whitelistSchemes : list string :=
  [ "about"; "chrome"; "file"; "irc"; "moz-safe-about"; "news"; "resource";
    "snews"; "x-jsd"; "addbook"; "cid"; "imap"; "mailbox"; "nntp"; "pop";
    "data"; "javascript"; "moz-icon" ].

(** [Array.prototype.indexOf]. *)
Fixpoint indexOf_from (l : list string) (x : string) (i : Z) : Z :=
  match l with
  | [] => -1
  | y :: l' => if decide (y = x) then i else indexOf_from l' x (i + 1)
  end.
Definition indexOf (l : list string) (x : string) : Z := indexOf_from l x 0.

Definition hasWhitelistedScheme (location : nsIURI) : bool :=
  (indexOf whitelistSchemes (scheme location) >? -1)%Z.

(** Truthiness of the value [shouldIgnoreRequest] returns (a string or
    [undefined]). *)
Definition truthy (v : option string) : bool :=
  match v with
  | Some s => negb (String.eqb s "")
  | None => false
  end.

Section Policy.
Context `{Platform}.

(** [Policy.isBlockableRequest(location, window, channel, contentType)]. *)
Definition isBlockableRequest (location : nsIURI) (window : WinRef)
    (channel : option Channel) (contentType : Z) : Res bool :=
  if hasWhitelistedScheme location then Ok false
  else match channel with
  | Some ch => Ok (isThirdPartyChannel ch)
  | None =>
    if (contentType =? TYPE_DOCUMENT)%Z then Ok false
    else match window with
    | WNull => Throw TypeError
    | WObject win =>
      match win_top win with
      | None => Ok false
      | Some topWin =>
        match top_href topWin with
        | None => Ok false
        | Some href =>
          if String.eqb href "" then Ok false
          else match isThirdPartyURI (spec location) href with
               | Ok isThirdParty => Ok isThirdParty
               | Throw _ => Ok true
               end
        end
      end
    end
  end.

(** [Policy.heuristicBlocksRequest]. *)
Definition heuristicBlocksRequest (location : nsIURI) (window : WinRef)
    : M bool :=
  let host := host location in
  let origin := getBaseDomain location in
  st <- gets storage ;;
  if bool_decide (origin ∈ blockedOrigins st) then
    emit_update_settings "block" window host ;;; ret true
  else ret false.

(** [Policy.heuristicCookieblocksRequest]. *)
Definition heuristicCookieblocksRequest (location : nsIURI)
    (window : WinRef) : M bool :=
  let host := host location in
  let origin := getBaseDomain location in
  st <- gets storage ;;
  if bool_decide (host ∈ preloads st) || bool_decide (origin ∈ preloads st)
  then
    if bool_decide (origin ∈ blockedOrigins st) then
      emit_update_settings "cookieblock" window host ;;;
      modify (set_clobbered (fun l => l ++ [host])) ;;;
      ret true
    else
      emit_update_settings "noaction" window host ;;; ret false
  else ret false.

(** [Policy.subdomainCookieblocksRequest]. *)
Definition subdomainCookieblocksRequest (location : nsIURI)
    (window : WinRef) : M bool :=
  let host := host location in
  let origin := getBaseDomain location in
  st <- gets storage ;;
  if bool_decide (origin ∈ userRed st)
     || bool_decide (origin ∈ blockedOrigins st)
  then
    emit_update_settings "cookieblock" window host ;;;
    modify (set_clobbered (fun l => l ++ [host])) ;;;
    ret true
  else ret false.

(** [if (window) emit(...)]. *)
Definition emit_if_window (msg : string) (window : WinRef) (host : string)
    : M unit :=
  match window with
  | WNull => ret tt
  | WObject _ => emit_update_settings msg window host
  end.

(** [Policy.isUserRedRequest]. *)
Definition isUserRedRequest (location : nsIURI) (window : WinRef)
    : M bool :=
  let host := host location in
  st <- gets storage ;;
  if bool_decide (host ∈ userRed st) then
    emit_if_window "userblock" window host ;;; ret true
  else ret false.

(** [Policy.isUserYellowRequest]. *)
Definition isUserYellowRequest (location : nsIURI) (window : WinRef)
    : M bool :=
  let host := host location in
  let origin := getBaseDomain location in
  st <- gets storage ;;
  if bool_decide (host ∈ userYellow st) then
    emit_if_window "usercookieblock" window host ;;; ret true
  else if bool_decide (origin ∈ userYellow st) then
    emit_if_window "usercookieblock" window host ;;;
    modify (set_clobbered (fun l => l ++ [host])) ;;;
    ret true
  else ret false.

(** [Policy.isUserGreenRequest]. *)
Definition isUserGreenRequest (location : nsIURI) (window : WinRef)
    : M bool :=
  let host := host location in
  st <- gets storage ;;
  if bool_decide (host ∈ userGreen st) then
    emit_if_window "usernoaction" window host ;;; ret true
  else ret false.

(** [Policy.shouldIgnoreRequest]: the name of the rule that matched, or
    [undefined]. *)
Definition shouldIgnoreRequest (location : nsIURI) (window : WinRef)
    : M (option string) :=
  green <- isUserGreenRequest location window ;;
  if green then ret (Some "userGreen")
  else
    yellow <- isUserYellowRequest location window ;;
    if yellow then ret (Some "userYellow")
    else
      st <- gets storage ;;
      if bool_decide (host location ∈ preloads st)
      then ret (Some "preloads")
      else ret None.

(** [Policy.shouldBlockRequest] and [Policy.shouldCookieblockRequest]. *)
Definition shouldBlockRequest (location : nsIURI) (window : WinRef)
    : M bool :=
  orM (isUserRedRequest location window)
      (heuristicBlocksRequest location window).

Definition shouldCookieblockRequest (location : nsIURI) (window : WinRef)
    : M bool :=
  orM (isUserYellowRequest location window)
      (orM (heuristicCookieblocksRequest location window)
           (subdomainCookieblocksRequest location window)).

(** [ContentPolicy.shouldLoad(contentType, contentLocation, requestOrigin,
    node, ...)]; [node] is [None] for a null context. *)
Definition shouldLoad (contentType : Z) (contentLocation : nsIURI)
    (node : option LoadContext) : M Verdict :=
  let window := contextWindow node in
  blockable <- liftRes (isBlockableRequest contentLocation window None
                                           contentType) ;;
  if negb blockable then ret ACCEPT
  else
    red <- isUserRedRequest contentLocation window ;;
    if red then ret REJECT
    else
      ignored <- shouldIgnoreRequest contentLocation window ;;
      if truthy ignored then ret ACCEPT
      else
        blocked <- heuristicBlocksRequest contentLocation window ;;
        if blocked then ret REJECT else ret ACCEPT.
End Policy.

(** ** lib/userStorage.js *)

(** Modelled from the spec: [lib/userStorage.js] is not among the sources.
    The specification's description of the commit step fixes what its four
    operations do to the user sets: [reset] removes the origin from all
    three, [block] adds it to [userRed], [cookieblock] to [userYellow] and
    [noaction] to [userGreen]. *)
Definition specUserStorage : UserStorage := {|
  clearOrigin origin st :=
    mkStorage (preloads_names st) (blockedOrigins_names st)
              (userRed_names st ∖ {[origin]})
              (userYellow_names st ∖ {[origin]})
              (userGreen_names st ∖ {[origin]});
  addRed origin st :=
    mkStorage (preloads_names st) (blockedOrigins_names st)
              (userRed_names st ∪ {[origin]})
              (userYellow_names st) (userGreen_names st);
  addYellow origin st :=
    mkStorage (preloads_names st) (blockedOrigins_names st)
              (userRed_names st)
              (userYellow_names st ∪ {[origin]}) (userGreen_names st);
  addGreen origin st :=
    mkStorage (preloads_names st) (blockedOrigins_names st)
              (userRed_names st)
              (userYellow_names st) (userGreen_names st ∪ {[origin]})
|}.

(** ** A small platform and concrete requests *)

(** A stand-in for the browser services, used to run the model on concrete
    requests. A URI is [scheme:rest]; it has a host when [rest] is
    [//host/path]. The base domain of a host is its last two labels (no
    public-suffix list). As [mozIThirdPartyUtil] does, the comparison raises
    on a null URI and on a URI without a host. *)
Module Example.

Fixpoint labels (s : string) : list string :=
  match s with
  | EmptyString => [""]
  | String c s' =>
      if Ascii.eqb c (Ascii.ascii_of_nat 46) then "" :: labels s'
      else match labels s' with
           | l :: ls => String c l :: ls
           | [] => [String c ""]
           end
  end.

Definition baseDomainOfHost (h : string) : string :=
  let ls := labels h in
  String.concat "." (drop (length ls - 2) ls).

Definition parseURI (url : string) : option nsIURI :=
  match String.index 0 ":" url with
  | Some i =>
      let rest := String.substring (i + 1) (String.length url - (i + 1)) url in
      let h := if String.prefix "//" rest then
                 let auth := String.substring 2 (String.length rest - 2) rest in
                 match String.index 0 "/" auth with
                 | Some j => String.substring 0 j auth
                 | None => auth
                 end
               else "" in
      Some (mkURI (String.substring 0 i url) h url)
  | None => None
  end.

Definition platform : Platform := {|
  makeURI := parseURI;
  tpu_isThirdPartyURI a b :=
    match a, b with
    | Some u, Some d =>
        if String.eqb (host u) "" || String.eqb (host d) "" then None
        else Some (negb (String.eqb (baseDomainOfHost (host u))
                                    (baseDomainOfHost (host d))))
    | _, _ => None
    end;
  tpu_isThirdPartyChannel _ := None;
  getBaseDomain u := baseDomainOfHost (host u)
|}.

(** The request and the page of the specification's scenario: a script of
    [cdn.tracker.com] loaded in a frame of a tab showing [site.com]. *)
Definition tracker_js : nsIURI :=
  mkURI "https" "cdn.tracker.com" "https://cdn.tracker.com/x.js".
Definition site_top : TopWindow := mkTop 1 (Some "https://site.com/").
Definition site_win : Window := mkWin 1 (Some site_top).
Definition site_frame : Window := mkWin 2 (Some site_top).
Definition TYPE_SCRIPT : Z := 2.


Definition rules (pre blocked red yellow green : list string) : Storage :=
  mkStorage (list_to_set pre) (list_to_set blocked) (list_to_set red)
            (list_to_set yellow) (list_to_set green).

Definition world_of (st : Storage) : World := mkWorld st ∅ [] [] [] 0.

(** The state after the script was blocked by the heuristic list: the
    table of the tab maps [cdn.tracker.com] to [block]. *)
Definition visited : World :=
  (@shouldLoad platform TYPE_SCRIPT tracker_js (Some (CtxWindow site_frame))
     (world_of (rules [] ["tracker.com"] [] [] []))).1.

End Example.

(** ** data/popup.js *)

(** JavaScript strings are kept as strings of single-byte characters; class
    names, tags and host names are ASCII. *)

(** [str.slice(begin, end)]: a negative index counts from the end, and
    both are clamped to the string. *)
Definition js_slice (str : string) (b e : Z) : string :=
  let len := Z.of_nat (String.length str) in
  let from := if (b <? 0)%Z then Z.max (len + b) 0 else Z.min b len in
  let to := if (e <? 0)%Z then Z.max (len + e) 0 else Z.min e len in
  String.substring (Z.to_nat from) (Z.to_nat (Z.max (to - from) 0)) str.

(** [_trim(str, max)]. *)
Definition _trim (str : string) (max : Z) : string :=
  if (Z.of_nat (String.length str) >=? max)%Z
  then String.append (js_slice str 0 (max - 3)) "..."
  else str.

(** A [.clicker] element of the popup, as the script reads and changes it
    through jQuery: the set of its class names, and its [data-origin] and
    [data-original-action] attributes. *)
Record Clicker := mkClicker {
  classes : gset string;
  data_origin : string;
  data_original_action : string
}.

Definition hasClass (c : string) (elt : Clicker) : bool :=
  bool_decide (c ∈ classes elt).
Definition addClass (c : string) (elt : Clicker) : Clicker :=
  mkClicker (classes elt ∪ {[c]}) (data_origin elt)
            (data_original_action elt).
Definition removeClass (c : string) (elt : Clicker) : Clicker :=
  mkClicker (classes elt ∖ {[c]}) (data_origin elt)
            (data_original_action elt).
Definition toggleClass (c : string) (elt : Clicker) : Clicker :=
  if hasClass c elt then removeClass c elt else addClass c elt.

(** Lines 41-49 of [_addOriginHTML(origin, printable, action)]: the class
    names put into the markup of an origin's row, and the action left after
    the [user] prefix is cut off (it is written to
    [data-original-action]). *)
Definition originClasses (action : string) : list string * string :=
  let classes := ["clicker"] in
  let '(classes, action) :=
    if String.prefix "user" action
    then (classes ++ ["userset"],
          String.substring 4 (String.length action - 4) action)
    else (classes, action) in
  let classes :=
    if String.eqb action "block" || String.eqb action "cookieblock"
    then classes ++ [action] else classes in
  (classes, action).

(** The element that the markup of [_addOriginHTML] describes. *)
Definition originClicker (origin action : string) : Clicker :=
  mkClicker (list_to_set (originClasses action).1) origin
            (originClasses action).2.

(** [toggleBlockedStatus(elt, status)]; [status] is a class name, or the
    empty string when the argument is left out. *)
Definition toggleBlockedStatus (elt : Clicker) (status : string) : Clicker :=
  if negb (String.eqb status "") then
    addClass "userset"
      (addClass status
         (removeClass "noaction"
            (removeClass "cookieblock" (removeClass "block" elt))))
  else
    let originalAction := data_original_action elt in
    let elt :=
      if hasClass "block" elt then toggleClass "block" elt
      else if hasClass "cookieblock" elt
      then toggleClass "cookieblock" (toggleClass "block" elt)
      else toggleClass "cookieblock" elt in
    if hasClass originalAction elt
       || (String.eqb originalAction "noaction"
           && negb (hasClass "block" elt || hasClass "cookieblock" elt))
    then removeClass "userset" elt
    else addClass "userset" elt.

(** [getCurrentClass(elt)]. *)
Definition getCurrentClass (elt : Clicker) : string :=
  if hasClass "block" elt then "block"
  else if hasClass "cookieblock" elt then "cookieblock"
  else "noaction".

(** [buildSettingsDict()], on the [.clicker] elements in document order. *)
Definition buildSettingsDict (clickers : list Clicker)
    : list (string * string) :=
  foldl (fun settingsDict elt =>
           let origin := data_origin elt in
           if hasClass "userset" elt
              && negb (String.eqb (getCurrentClass elt)
                                  (data_original_action elt))
           then
             if hasClass "block" elt
             then obj_set origin "block" settingsDict
             else if hasClass "cookieblock" elt
             then obj_set origin "cookieblock" settingsDict
             else obj_set origin "noaction" settingsDict
           else settingsDict)
        [] clickers.

(** ** Observations used in the statements *)

(** What the ledger shows for an origin in the table of a window. *)
Definition ledgerEntry (w : World) (key : positive) (origin : string)
    : option JSVal :=
  settingsMap w !! key ≫= (λ table : gmap string JSVal, table !! origin).


(** The events emitted between two states of the trace. *)
Definition newEvents (before after : World) : list Event :=
  drop (length (emitted before)) (emitted after).


(** A computation that reads nothing but the rule lists: from two states
    with the same rule lists it returns the same result, emits the same
    events and clobbers the same cookies, and it leaves the rule lists, the
    staged edits and the reload count alone. *)
Definition rules_only {A} (c : M A) : Prop :=
  ∀ w1 w2, storage w1 = storage w2 →
    ∃ r evs cl m1 m2,
      c w1 = (mkWorld (storage w1) m1 (changedSettings w1)
                      (emitted w1 ++ evs) (clobbered w1 ++ cl) (reloads w1),
              r) ∧
      c w2 = (mkWorld (storage w2) m2 (changedSettings w2)
                      (emitted w2 ++ evs) (clobbered w2 ++ cl) (reloads w2),
              r).

(** The six tags of decision events. *)
Definition decisionTags : list string :=
  ["noaction"; "block"; "cookieblock";
   "usernoaction"; "userblock"; "usercookieblock"].

(** Every entry of the ledger is one of the six decision tags. *)
Definition ledgerTagged (w : World) : Prop :=
  ∀ key origin v,
    ledgerEntry w key origin = Some v →
    ∃ tag, v = JStr tag ∧ tag ∈ decisionTags.

(** A computation that keeps the ledger so. *)
Definition keeps_tagged {A} (c : M A) : Prop :=
  ∀ w, ledgerTagged w → ledgerTagged (c w).1.

(** * Properties *)

(** ** Running the model *)

Ltac unfold_M := unfold orM, bind, ret, gets, modify, liftRes.

Ltac unfold_emit :=
  unfold emit_if_window, emit_update_settings, updateSettingsListener.

Ltac unfold_policy :=
  unfold shouldLoad, shouldBlockRequest, shouldCookieblockRequest,
    shouldIgnoreRequest, isUserRedRequest, isUserGreenRequest,
    isUserYellowRequest, heuristicBlocksRequest,
    heuristicCookieblocksRequest, subdomainCookieblocksRequest.

(** Membership tests whose outcome is known from the context. *)
Ltac known_tests :=
  repeat match goal with
  | H : ?x ∈ ?s |- context [bool_decide (?x ∈ ?s)] =>
      rewrite (bool_decide_eq_true_2 (x ∈ s) H)
  | H : ?x ∉ ?s |- context [bool_decide (?x ∈ ?s)] =>
      rewrite (bool_decide_eq_false_2 (x ∈ s) H)
  end.

(** ** Events and the ledger *)

(** Every rule list answers for [__proto__], so a name that a rule list
    does not answer for is another name. *)
Lemma rule_lists_proto st :
  "__proto__" ∈ preloads st ∧ "__proto__" ∈ blockedOrigins st ∧
  "__proto__" ∈ userRed st ∧ "__proto__" ∈ userYellow st ∧
  "__proto__" ∈ userGreen st.
Proof.
  unfold preloads, blockedOrigins, userRed, userYellow, userGreen.
  repeat split; set_solver.
Qed.

Lemma not_listed_not_proto (h : string) st :
  h ∉ preloads st ∨ h ∉ blockedOrigins st ∨ h ∉ userRed st ∨
    h ∉ userYellow st ∨ h ∉ userGreen st →
  h ≠ "__proto__".
Proof.
  destruct (rule_lists_proto st) as (? & ? & ? & ? & ?).
  intros Hnot ->. naive_solver.
Qed.

(** Delivering an event changes the ledger at most. *)
Lemma updateSettingsListener_run msg aWin aOrigin w :
  ∃ m' r, updateSettingsListener msg aWin aOrigin w =
          (mkWorld (storage w) m' (changedSettings w) (emitted w)
                   (clobbered w) (reloads w), r).
Proof.
  unfold updateSettingsListener; unfold_M. destruct w.
  destruct aWin as [|win]; [by eexists _, _|].
  destruct (decide (aOrigin = "")); [by eexists _, _|].
  destruct (win_top win); by eexists _, _.
Qed.

(** Emitting appends one event to the trace, whatever the listener does
    with it. *)
Lemma emit_update_settings_run msg window h w :
  ∃ m', emit_update_settings msg window h w =
        (mkWorld (storage w) m' (changedSettings w)
                 (emitted w ++ [mkEvent msg window h])
                 (clobbered w) (reloads w), Ok tt).
Proof.
  unfold emit_update_settings, listener_call; unfold_M. simpl.
  destruct (updateSettingsListener_run msg window h
              (set_emitted (λ l, l ++ [mkEvent msg window h]) w))
    as (m' & r & ->).
  exists m'. by destruct r.
Qed.

(** The ledger entry an event leaves, when it has a window with a top and
    an origin. *)
Lemma emit_update_settings_ledger msg win topWin h w :
  win_top win = Some topWin → h ≠ "" → h ≠ "__proto__" →
  ∃ table,
    settingsMap (emit_update_settings msg (WObject win) h w).1
      !! top_id topWin = Some table ∧
    table !! h = Some (JStr msg).
Proof.
  intros Htop Hh Hproto.
  unfold emit_update_settings, listener_call, updateSettingsListener.
  unfold_M. simpl. rewrite Htop. destruct (decide (h = "")); [done|].
  simpl. eexists. rewrite lookup_insert_eq. split; [done|].
  unfold table_set. rewrite decide_False by done.
  by rewrite lookup_insert_eq.
Qed.

(** ** Computations that read the rule lists only *)

Lemma rules_only_ret {A} (a : A) : rules_only (ret a).
Proof.
  intros w1 w2 _. exists (Ok a), [], [], (settingsMap w1), (settingsMap w2).
  rewrite !app_nil_r. by destruct w1, w2.
Qed.

Lemma rules_only_liftRes {A} (r : Res A) : rules_only (liftRes r).
Proof.
  intros w1 w2 _. exists r, [], [], (settingsMap w1), (settingsMap w2).
  rewrite !app_nil_r. by destruct w1, w2.
Qed.

Lemma rules_only_bind {A B} (c : M A) (k : A → M B) :
  rules_only c → (∀ a, rules_only (k a)) → rules_only (bind c k).
Proof.
  intros Hc Hk w1 w2 Hst.
  destruct (Hc w1 w2 Hst) as (r & evs & cl & m1 & m2 & H1 & H2).
  unfold bind. rewrite H1, H2. destruct r as [a|e].
  - edestruct (Hk a) as (r' & evs' & cl' & m1' & m2' & H1' & H2');
      [|rewrite H1', H2']; [exact Hst|]. simpl.
    exists r', (evs ++ evs'), (cl ++ cl'), m1', m2'.
    by rewrite !app_assoc.
  - by exists (Throw e), evs, cl, m1, m2.
Qed.

Lemma rules_only_storage {B} (k : Storage → M B) :
  (∀ st, rules_only (k st)) → rules_only (bind (gets storage) k).
Proof.
  intros Hk w1 w2 Hst. unfold bind, gets.
  destruct (Hk (storage w1) w1 w2 Hst) as (r & evs & cl & m1 & m2 & H1 & H2).
  exists r, evs, cl, m1, m2. split; [done|].
  by replace (k (storage w2)) with (k (storage w1)) by (by rewrite Hst).
Qed.

Lemma rules_only_emit msg window h :
  rules_only (emit_update_settings msg window h).
Proof.
  intros w1 w2 _.
  destruct (emit_update_settings_run msg window h w1) as [m1 ->].
  destruct (emit_update_settings_run msg window h w2) as [m2 ->].
  exists (Ok tt), [mkEvent msg window h], [], m1, m2.
  by rewrite !app_nil_r.
Qed.

Lemma rules_only_clobber h :
  rules_only (modify (set_clobbered (λ l, l ++ [h]))).
Proof.
  intros w1 w2 _. exists (Ok tt), [], [h], (settingsMap w1), (settingsMap w2).
  by rewrite !app_nil_r.
Qed.

(** Composition of the lemmas above along the syntax of a computation. *)
Ltac rules_only_step :=
  first
    [ apply rules_only_ret
    | apply rules_only_liftRes
    | apply rules_only_emit
    | apply rules_only_clobber
    | apply rules_only_storage; intros ?
    | apply rules_only_bind; [|intros ?]
    | match goal with
      | |- rules_only (if ?b then _ else _) => destruct b
      | |- rules_only (match ?x with _ => _ end) => destruct x
      end ].

Ltac rules_only_tac :=
  unfold_policy; unfold emit_if_window, orM; repeat rules_only_step.

Section Blockable.
Context `{Platform}.

(** [isBlockableRequest] needs an object as window unless it answers
    before looking at it. *)
Lemma isBlockableRequest_null location channel contentType b :
  isBlockableRequest location WNull channel contentType = Ok b →
  b = false ∨ ∃ ch, channel = Some ch.
Proof.
  unfold isBlockableRequest.
  destruct (hasWhitelistedScheme location); [intros [= <-]; by left|].
  destruct channel as [ch|]; [intros _; right; by exists ch|].
  destruct (contentType =? TYPE_DOCUMENT)%Z; [intros [= <-]; by left|].
  discriminate.
Qed.

(** What the answer true tells about the window. *)
Lemma isBlockableRequest_true_window location window contentType :
  isBlockableRequest location window None contentType = Ok true →
  ∃ win topWin href,
    window = WObject win ∧ win_top win = Some topWin ∧
    top_href topWin = Some href ∧ href ≠ "".
Proof.
  intros Hblk. destruct window as [|win].
  { apply isBlockableRequest_null in Hblk as [[=]|[ch [=]]]. }
  revert Hblk. unfold isBlockableRequest.
  destruct (hasWhitelistedScheme location); [discriminate|].
  destruct (contentType =? TYPE_DOCUMENT)%Z; [discriminate|].
  destruct (win_top win) as [topWin|] eqn:Htop; [|discriminate].
  destruct (top_href topWin) as [href|] eqn:Hhref; [|discriminate].
  destruct (String.eqb href "") eqn:Hempty; [discriminate|].
  intros _. exists win, topWin, href. repeat split; try done.
  intros ->. discriminate.
Qed.

(** [shouldLoad] on a request that is not blockable touches no state. *)
Lemma shouldLoad_not_blockable contentType location node w :
  isBlockableRequest location (contextWindow node) None contentType
    = Ok false →
  shouldLoad contentType location node w = (w, Ok ACCEPT).
Proof. intros Hblk. unfold shouldLoad; unfold_M. by rewrite Hblk. Qed.

Lemma shouldLoad_blockable_throws contentType location node w e :
  isBlockableRequest location (contextWindow node) None contentType
    = Throw e →
  shouldLoad contentType location node w = (w, Throw e).
Proof. intros Hblk. unfold shouldLoad; unfold_M. by rewrite Hblk. Qed.

End Blockable.

Section Decisions.
Context `{Platform}.


(** C1. A blockable request whose host is in [userRed] is
    rejected, and exactly one event, [userblock] for the request's window
    and host, is emitted; the other rule lists are not consulted. *)
Theorem user_red_rejects contentType location node w :
  host location ∈ userRed (storage w) →
  isBlockableRequest location (contextWindow node) None contentType
    = Ok true →
  ∃ w',
    shouldLoad contentType location node w = (w', Ok REJECT) ∧
    emitted w' = (emitted w ++
      [mkEvent "userblock" (contextWindow node) (host location)])%list.
Proof.
  intros Hred Hblk.
  destruct (isBlockableRequest_true_window _ _ _ Hblk)
    as (win & topWin & href & Hwin & _).
  unfold shouldLoad, isUserRedRequest; unfold_M.
  rewrite Hblk. simpl. known_tests. rewrite Hwin. simpl.
  destruct (emit_update_settings_run "userblock" (WObject win)
              (host location) w) as [m' ->].
  eexists. split; reflexivity.
Qed.

(** With an object as window [isBlockableRequest] always answers. *)
Lemma isBlockableRequest_object location win contentType :
  ∃ b, isBlockableRequest location (WObject win) None contentType = Ok b.
Proof.
  unfold isBlockableRequest.
  repeat (case_match; try by eexists).
Qed.

(** C2. A host on the preload list whose base domain is on the
    heuristic block list, with no user rule for the host and none for its
    base domain in [userYellow]: [shouldLoad] accepts the request without
    any event, and [shouldCookieblockRequest] answers true, emits
    [cookieblock] and clobbers the host's cookie. *)
Theorem preload_exemption_degrades contentType location node win window w :
  host location ∈ preloads (storage w) →
  getBaseDomain location ∈ blockedOrigins (storage w) →
  host location ∉ userRed (storage w) →
  host location ∉ userYellow (storage w) →
  host location ∉ userGreen (storage w) →
  getBaseDomain location ∉ userYellow (storage w) →
  contextWindow node = WObject win →
  shouldLoad contentType location node w = (w, Ok ACCEPT) ∧
  ∃ w',
    shouldCookieblockRequest location window w = (w', Ok true) ∧
    emitted w' = emitted w ++ [mkEvent "cookieblock" window (host location)] ∧
    clobbered w' = clobbered w ++ [host location].
Proof.
  intros Hpre Hblocked Hred Hyellow Hgreen Hbase Hwin. split.
  - destruct (isBlockableRequest_object location win contentType)
      as [[] Hblk]; rewrite <- Hwin in Hblk.
    + unfold_policy; unfold_M. rewrite Hblk. simpl. by known_tests.
    + by apply shouldLoad_not_blockable.
  - unfold_policy; unfold_M. known_tests. simpl.
    destruct (emit_update_settings_run "cookieblock" window
                (host location) w) as [m' ->].
    eexists. by repeat split.
Qed.

(** C3. A non-empty host whose base domain is on the heuristic
    block list, with no user rule for the host, none for its base domain in
    [userYellow], and not on the preload list: a blockable request is
    rejected, exactly the event [block] is emitted, and afterwards
    the table of the window's top maps the host to [block]. *)
Theorem heuristic_block_recorded contentType location node w :
  getBaseDomain location ∈ blockedOrigins (storage w) →
  host location ∉ userRed (storage w) →
  host location ∉ userYellow (storage w) →
  host location ∉ userGreen (storage w) →
  getBaseDomain location ∉ userYellow (storage w) →
  host location ∉ preloads (storage w) →
  host location ≠ "" →
  isBlockableRequest location (contextWindow node) None contentType
    = Ok true →
  ∃ w' win topWin table,
    shouldLoad contentType location node w = (w', Ok REJECT) ∧
    emitted w' =
      emitted w ++ [mkEvent "block" (contextWindow node) (host location)] ∧
    contextWindow node = WObject win ∧ win_top win = Some topWin ∧
    settingsMap w' !! top_id topWin = Some table ∧
    table !! host location = Some (JStr "block").
Proof.
  intros Hblocked Hred Hyellow Hgreen Hbase Hpre Hhost Hblk.
  destruct (isBlockableRequest_true_window _ _ _ Hblk)
    as (win & topWin & href & Hwin & Htop & _).
  assert (host location ≠ "__proto__") as Hproto
    by (apply (not_listed_not_proto _ (storage w)); naive_solver).
  destruct (emit_update_settings_ledger "block" win topWin (host location) w
              Htop Hhost Hproto) as (table & Htable & Hentry).
  destruct (emit_update_settings_run "block" (WObject win)
              (host location) w) as [m' Hrun].
  exists (emit_update_settings "block" (WObject win) (host location) w).1,
    win, topWin, table.
  split; [|split; [|done]].
  - unfold_policy; unfold_M. rewrite Hblk. simpl. known_tests. simpl.
    rewrite Hwin. known_tests. by rewrite Hrun.
  - rewrite Hwin. by rewrite Hrun.
Qed.

(** C7. When the host or its base domain is in [userYellow],
    [isUserYellowRequest] answers true; it emits [usercookieblock] when it
    is given a window, and it clobbers the host's cookie only when the
    match is on the base domain and not on the host itself. *)
Theorem user_yellow_request location window w :
  host location ∈ userYellow (storage w) ∨
    getBaseDomain location ∈ userYellow (storage w) →
  ∃ w',
    isUserYellowRequest location window w = (w', Ok true) ∧
    emitted w' = emitted w ++
      match window with
      | WNull => []
      | WObject _ => [mkEvent "usercookieblock" window (host location)]
      end ∧
    clobbered w' = clobbered w ++
      if bool_decide (host location ∈ userYellow (storage w)) then []
      else [host location].
Proof.
  intros Hyellow. unfold isUserYellowRequest, emit_if_window; unfold_M.
  case_bool_decide as Hhost.
  - destruct window as [|win].
    + exists w. by rewrite !app_nil_r.
    + destruct (emit_update_settings_run "usercookieblock" (WObject win)
                  (host location) w) as [m' ->].
      eexists. simpl. by rewrite app_nil_r.
  - destruct Hyellow as [?|Hbase]; [done|]. known_tests.
    destruct window as [|win].
    + eexists. simpl. by rewrite app_nil_r.
    + destruct (emit_update_settings_run "usercookieblock" (WObject win)
                  (host location) w) as [m' ->].
      by eexists.
Qed.

(** C10. For a host in [userRed], [isUserRedRequest] and
    [shouldBlockRequest] answer true also without a window, and then emit
    nothing and leave the ledger as it is; but [shouldLoad] calls
    [isBlockableRequest] first, and without a window it does not return
    REJECT. *)
Theorem user_red_without_window contentType location node w :
  host location ∈ userRed (storage w) →
  contextWindow node = WNull →
  isUserRedRequest location WNull w = (w, Ok true) ∧
  shouldBlockRequest location WNull w = (w, Ok true) ∧
  (shouldLoad contentType location node w).1 = w ∧
  (shouldLoad contentType location node w).2 ≠ Ok REJECT.
Proof.
  intros Hred Hwin.
  assert (isUserRedRequest location WNull w = (w, Ok true)) as Hcheck.
  { unfold isUserRedRequest, emit_if_window; unfold_M. by known_tests. }
  split; [done|]. split.
  { unfold shouldBlockRequest; unfold_M. by rewrite Hcheck. }
  destruct (isBlockableRequest location (contextWindow node) None
              contentType) as [[]|e] eqn:Hblk.
  - rewrite Hwin in Hblk.
    by apply isBlockableRequest_null in Hblk as [[=]|[ch [=]]].
  - by rewrite (shouldLoad_not_blockable _ _ _ _ Hblk).
  - by rewrite (shouldLoad_blockable_throws _ _ _ _ _ Hblk).
Qed.


(** [shouldLoad] reads nothing but the rule lists. *)
Lemma shouldLoad_rules_only contentType location node :
  rules_only (shouldLoad contentType location node).
Proof. rules_only_tac. Qed.

Lemma newEvents_extend w s m c evs cl r :
  newEvents w (mkWorld s m c (emitted w ++ evs) cl r) = evs.
Proof. unfold newEvents. simpl. by rewrite drop_app_length. Qed.

(** C9. Two calls of [shouldLoad] with the same arguments, from states
    with the same rule lists, return the same verdict and emit the same
    events; and a call leaves the rule lists as they are, so that the
    second state may be the one the first call ends in. *)
Theorem shouldLoad_idempotent contentType location node w1 w2 :
  storage w2 = storage w1 →
  (shouldLoad contentType location node w1).2 =
    (shouldLoad contentType location node w2).2 ∧
  newEvents w1 (shouldLoad contentType location node w1).1 =
    newEvents w2 (shouldLoad contentType location node w2).1 ∧
  storage (shouldLoad contentType location node w1).1 = storage w1.
Proof.
  intros Hst.
  destruct (shouldLoad_rules_only contentType location node w1 w2
              (eq_sym Hst)) as (r & evs & cl & m1 & m2 & -> & ->).
  simpl. by rewrite !newEvents_extend.
Qed.

End Decisions.

(** ** The ledger across a navigation *)

(** C5. After a location change that is not a same-document
    change, reading the settings of that window returns the empty table
    (the default of [settingsMap.get]), whatever had been recorded for it
    before. *)
Theorem navigation_empties_table aFlags win w :
  aFlags ≠ LOCATION_CHANGE_SAME_DOCUMENT →
  getCurrentSettings win (onLocationChange aFlags win w).1 =
    ((onLocationChange aFlags win w).1, Ok ∅).
Proof.
  intros Hflags. unfold onLocationChange.
  apply Z.eqb_neq in Hflags as ->. rewrite orb_true_r.
  unfold getCurrentSettings, clearSettingsListener; unfold_M. simpl.
  by rewrite lookup_delete_eq.
Qed.

(** ** Committing staged edits *)

Section Commit_any.
Context `{UserStorage}.

Lemma applySettings_app before after st :
  applySettings (before ++ after) st
  = applySettings after (applySettings before st).
Proof. unfold applySettings. by rewrite foldl_app. Qed.

(** [handleNewSettings] applies the staged edits as the specification
    describes the commit. *)
Lemma applySettings_SpecCommit settings st :
  SpecCommit settings st (applySettings settings st).
Proof.
  revert st. induction settings as [|[origin tag] settings IH]; intros st.
  - apply commit_done.
  - change (applySettings ((origin, tag) :: settings) st)
      with (applySettings settings (applySetting origin tag st)).
    unfold applySetting. repeat case_decide; subst.
    + by apply commit_reset.
    + by apply commit_block.
    + by apply commit_cookieblock.
    + by apply commit_noaction.
    + apply commit_skip; [|done]. set_solver.
Qed.

(** The specification's commit has one outcome. *)
Lemma SpecCommit_functional edits st st1 st2 :
  SpecCommit edits st st1 → SpecCommit edits st st2 → st1 = st2.
Proof.
  intros Hcommit. revert st2.
  induction Hcommit as [st|origin edits st st' _ IH|origin edits st st' _ IH
                        |origin edits st st' _ IH|origin edits st st' _ IH
                        |origin tag edits st st' Htag _ IH];
    intros st2 Hother; inversion Hother; subst;
    try (by apply IH); set_solver.
Qed.

(** C8. A staged entry whose tag is none of [reset], [block],
    [cookieblock], [noaction] changes no rule list, and a commit that
    contains it applies the entries before and after it, in their order,
    as if it were absent: the rule lists it leaves are those of the
    specification's commit of the other entries, and no others. *)
Theorem invalid_tag_skipped before after origin tag w :
  tag ≠ "reset" → tag ≠ "block" → tag ≠ "cookieblock" → tag ≠ "noaction" →
  (∀ st, applySetting origin tag st = st) ∧
  handleNewSettings (before ++ (origin, tag) :: after) w =
    (set_reloads S (set_storage (applySettings (before ++ after)) w),
     Ok true) ∧
  SpecCommit (before ++ after) (storage w)
    (storage (handleNewSettings (before ++ (origin, tag) :: after) w).1) ∧
  ∀ st', SpecCommit (before ++ after) (storage w) st' →
    st' = storage (handleNewSettings (before ++ (origin, tag) :: after) w).1.
Proof.
  intros Hreset Hblock Hcookie Hnoaction.
  assert (∀ st, applySetting origin tag st = st) as Hskip.
  { intros st. unfold applySetting. by repeat case_decide. }
  assert (handleNewSettings (before ++ (origin, tag) :: after) w =
    (set_reloads S (set_storage (applySettings (before ++ after)) w),
     Ok true)) as Hcommit.
  { unfold handleNewSettings; unfold_M.
    case_decide as Hlen.
    { rewrite length_app in Hlen. simpl in Hlen. lia. }
    unfold set_storage. simpl.
    rewrite !applySettings_app. unfold applySettings at 2. simpl.
    by rewrite Hskip. }
  split; [done|]. split; [done|].
  rewrite Hcommit. simpl. split; [apply applySettings_SpecCommit|].
  intros st' Hspec.
  exact (SpecCommit_functional _ _ _ _ Hspec (applySettings_SpecCommit _ _)).
Qed.


End Commit_any.

(** The panel's [reset] message stages the tag [reset]. *)
Lemma handleReset_stages origin :
  handleReset origin = handleUpdate origin "reset".
Proof. reflexivity. Qed.


Section Commit_spec.
#[local] Existing Instance specUserStorage.



End Commit_spec.

(** * The properties on concrete requests *)

Import Example.

(** A host in [userRed] that is also on every other list. *)
Lemma user_red_rejects_witness :
  let w := world_of (rules ["cdn.tracker.com"] ["tracker.com"]
                           ["cdn.tracker.com"] ["cdn.tracker.com"]
                           ["cdn.tracker.com"]) in
  let node := Some (CtxWindow site_frame) in
  host tracker_js ∈ userRed (storage w) ∧
  @isBlockableRequest platform tracker_js (contextWindow node) None
    TYPE_SCRIPT = Ok true ∧
  ∃ w',
    @shouldLoad platform TYPE_SCRIPT tracker_js node w = (w', Ok REJECT) ∧
    emitted w' = emitted w ++
      [mkEvent "userblock" (contextWindow node) (host tracker_js)].
Proof.
  intros w node.
  assert (host tracker_js ∈ userRed (storage w)) as Hred by compute_done.
  assert (@isBlockableRequest platform tracker_js (contextWindow node) None
            TYPE_SCRIPT = Ok true) as Hblk by (vm_compute; reflexivity).
  split; [exact Hred|]. split; [exact Hblk|].
  exact (@user_red_rejects platform TYPE_SCRIPT tracker_js node w Hred Hblk).
Defined.

Lemma preload_exemption_degrades_witness :
  let w := world_of (rules ["cdn.tracker.com"] ["tracker.com"] [] [] []) in
  let node := Some (CtxWindow site_frame) in
  @shouldLoad platform TYPE_SCRIPT tracker_js node w = (w, Ok ACCEPT) ∧
  ∃ w',
    @shouldCookieblockRequest platform tracker_js (WObject site_frame) w
      = (w', Ok true) ∧
    emitted w' = emitted w ++
      [mkEvent "cookieblock" (WObject site_frame) (host tracker_js)] ∧
    clobbered w' = clobbered w ++ [host tracker_js].
Proof.
  intros w node.
  apply (@preload_exemption_degrades platform TYPE_SCRIPT tracker_js node
           site_frame (WObject site_frame) w);
    first [compute_done | vm_compute; reflexivity].
Defined.

(** The base domain of the request is in [userYellow], its host is in no
    user set: the event is [usercookieblock], and none is [cookieblock]. *)
Lemma preload_exemption_counterexample :
  let w := world_of (rules ["cdn.tracker.com"] ["tracker.com"] []
                           ["tracker.com"] []) in
  host tracker_js ∈ preloads (storage w) ∧
  @getBaseDomain platform tracker_js ∈ blockedOrigins (storage w) ∧
  (host tracker_js ∉ userRed (storage w)) ∧
  (host tracker_js ∉ userYellow (storage w)) ∧
  (host tracker_js ∉ userGreen (storage w)) ∧
  emitted (@shouldCookieblockRequest platform tracker_js
             (WObject site_frame) w).1
    = [mkEvent "usercookieblock" (WObject site_frame) "cdn.tracker.com"].
Proof. repeat split; first [compute_done | vm_compute; reflexivity]. Qed.

Lemma heuristic_block_recorded_witness :
  let w := world_of (rules [] ["tracker.com"] [] [] []) in
  let node := Some (CtxWindow site_frame) in
  ∃ w' win topWin table,
    @shouldLoad platform TYPE_SCRIPT tracker_js node w = (w', Ok REJECT) ∧
    emitted w' =
      emitted w ++ [mkEvent "block" (contextWindow node) (host tracker_js)] ∧
    contextWindow node = WObject win ∧ win_top win = Some topWin ∧
    settingsMap w' !! top_id topWin = Some table ∧
    table !! host tracker_js = Some (JStr "block").
Proof.
  intros w node.
  apply (@heuristic_block_recorded platform TYPE_SCRIPT tracker_js node w);
    first [compute_done | vm_compute; reflexivity | discriminate].
Defined.

(** The base domain of the request is in [userYellow] and on the
    heuristic block list, its host is in no user set and not preloaded:
    the request is blockable and is accepted. *)
Lemma heuristic_block_counterexample :
  let w := world_of (rules [] ["tracker.com"] [] ["tracker.com"] []) in
  let node := Some (CtxWindow site_frame) in
  @getBaseDomain platform tracker_js ∈ blockedOrigins (storage w) ∧
  (host tracker_js ∉ userRed (storage w)) ∧
  (host tracker_js ∉ userYellow (storage w)) ∧
  (host tracker_js ∉ userGreen (storage w)) ∧
  (host tracker_js ∉ preloads (storage w)) ∧
  @isBlockableRequest platform tracker_js (contextWindow node) None
    TYPE_SCRIPT = Ok true ∧
  (@shouldLoad platform TYPE_SCRIPT tracker_js node w).2 = Ok ACCEPT.
Proof. repeat split; first [compute_done | vm_compute; reflexivity]. Qed.



Lemma navigation_empties_table_witness :
  0%Z ≠ LOCATION_CHANGE_SAME_DOCUMENT ∧
  settingsMap visited !! win_id site_win ≠ None ∧
  getCurrentSettings site_win (onLocationChange 0 site_win visited).1 =
    ((onLocationChange 0 site_win visited).1, Ok ∅).
Proof.
  assert (0%Z ≠ LOCATION_CHANGE_SAME_DOCUMENT) as Hflags by discriminate.
  split; [exact Hflags|]. split; [compute_done|].
  exact (navigation_empties_table 0 site_win visited Hflags).
Defined.

(** After the navigation the read returns the empty table, which is not
    the [{cleared: true}] table. *)
Lemma navigation_counterexample :
  (getCurrentSettings site_win (onLocationChange 0 site_win visited).1).2
    = Ok ∅ ∧
  (getCurrentSettings site_win (onLocationChange 0 site_win visited).1).2
    ≠ Ok cleared_marker.
Proof.
  assert ((getCurrentSettings site_win
             (onLocationChange 0 site_win visited).1).2 = Ok ∅) as Hread
    by (vm_compute; reflexivity).
  split; [exact Hread|]. rewrite Hread. intros Heq.
  apply (f_equal (λ r, match r with
                       | Ok table => table !! "cleared"
                       | Throw _ => None
                       end)) in Heq.
  unfold cleared_marker in Heq.
  by rewrite lookup_empty, lookup_singleton_eq in Heq.
Qed.



Lemma user_yellow_request_witness :
  let w := world_of (rules [] [] [] ["tracker.com"] []) in
  ∃ w',
    @isUserYellowRequest platform tracker_js (WObject site_frame) w
      = (w', Ok true) ∧
    emitted w' = emitted w ++
      [mkEvent "usercookieblock" (WObject site_frame) (host tracker_js)] ∧
    clobbered w' = clobbered w ++
      if bool_decide (host tracker_js ∈ userYellow (storage w)) then []
      else [host tracker_js].
Proof.
  intros w.
  apply (@user_yellow_request platform tracker_js (WObject site_frame) w).
  right. compute_done.
Defined.

(** The host itself is in [userYellow]: the check answers true and no
    cookie is clobbered. *)
Lemma user_yellow_counterexample :
  let w := world_of (rules [] [] [] ["cdn.tracker.com"] []) in
  host tracker_js ∈ userYellow (storage w) ∧
  (@isUserYellowRequest platform tracker_js (WObject site_frame) w).2
    = Ok true ∧
  clobbered (@isUserYellowRequest platform tracker_js
               (WObject site_frame) w).1 = [].
Proof. repeat split; first [compute_done | vm_compute; reflexivity]. Qed.

Lemma invalid_tag_skipped_witness :
  let w := world_of (rules [] [] [] [] []) in
  let staged := [("a.com", "block")] ++
                ("cdn.tracker.com", "userblock") ::
                [("b.com", "cookieblock")] in
  (∀ st, @applySetting specUserStorage "cdn.tracker.com" "userblock" st
         = st) ∧
  @handleNewSettings specUserStorage staged w =
    (set_reloads S
       (set_storage
          (@applySettings specUserStorage
             ([("a.com", "block")] ++ [("b.com", "cookieblock")])) w),
     Ok true) ∧
  @SpecCommit specUserStorage
    ([("a.com", "block")] ++ [("b.com", "cookieblock")]) (storage w)
    (storage (@handleNewSettings specUserStorage staged w).1) ∧
  (∀ st', @SpecCommit specUserStorage
            ([("a.com", "block")] ++ [("b.com", "cookieblock")])
            (storage w) st' →
     st' = storage (@handleNewSettings specUserStorage staged w).1) ∧
  "a.com" ∈ userRed (storage (@handleNewSettings specUserStorage staged w).1) ∧
  "b.com"
    ∈ userYellow (storage (@handleNewSettings specUserStorage staged w).1) ∧
  ("a.com" ∉ userRed (storage w)) ∧ ("b.com" ∉ userYellow (storage w)).
Proof.
  intros w staged.
  destruct (@invalid_tag_skipped specUserStorage [("a.com", "block")]
              [("b.com", "cookieblock")] "cdn.tracker.com" "userblock" w)
    as (Hskip & Hcommit & Hspec & Honly); try discriminate.
  split; [exact Hskip|]. split; [exact Hcommit|]. split; [exact Hspec|].
  split; [exact Honly|]. repeat split; compute_done.
Defined.

Lemma shouldLoad_idempotent_witness :
  let node := Some (CtxWindow site_frame) in
  let w1 := world_of (rules [] ["tracker.com"] [] [] []) in
  let w2 := (@shouldLoad platform TYPE_SCRIPT tracker_js node w1).1 in
  storage w2 = storage w1 ∧
  (@shouldLoad platform TYPE_SCRIPT tracker_js node w1).2 =
    (@shouldLoad platform TYPE_SCRIPT tracker_js node w2).2 ∧
  newEvents w1 (@shouldLoad platform TYPE_SCRIPT tracker_js node w1).1 =
    newEvents w2 (@shouldLoad platform TYPE_SCRIPT tracker_js node w2).1 ∧
  storage (@shouldLoad platform TYPE_SCRIPT tracker_js node w1).1
    = storage w1.
Proof.
  intros node w1 w2.
  assert (storage w2 = storage w1) as Hst by (vm_compute; reflexivity).
  split; [exact Hst|].
  exact (@shouldLoad_idempotent platform TYPE_SCRIPT tracker_js node w1 w2
           Hst).
Defined.

Lemma user_red_without_window_witness :
  let w := world_of (rules [] [] ["cdn.tracker.com"] [] []) in
  isUserRedRequest tracker_js WNull w = (w, Ok true) ∧
  @shouldBlockRequest platform tracker_js WNull w = (w, Ok true) ∧
  (@shouldLoad platform TYPE_SCRIPT tracker_js None w).1 = w ∧
  (@shouldLoad platform TYPE_SCRIPT tracker_js None w).2 ≠ Ok REJECT.
Proof.
  intros w.
  apply (@user_red_without_window platform TYPE_SCRIPT tracker_js None w);
    first [compute_done | reflexivity].
Defined.

(** No context node, a host in [userRed], a script load: [shouldLoad]
    does not return REJECT, it raises at [window.top]. *)
Lemma user_red_without_window_counterexample :
  let w := world_of (rules [] [] ["cdn.tracker.com"] [] []) in
  host tracker_js ∈ userRed (storage w) ∧
  @shouldLoad platform TYPE_SCRIPT tracker_js None w = (w, Throw TypeError) ∧
  (@shouldLoad platform TYPE_SCRIPT tracker_js None w).2 ≠ Ok REJECT.
Proof. repeat split; first [compute_done | discriminate]. Qed.

(** * Further properties of the code *)

(** ** The decision tables of the policy *)

(** ** What a decision event does to the ledger *)

(** X6. A decision event for a window with a top and an origin other
    than the empty string and [__proto__] is recorded in the table of the
    top: that origin now shows the event's tag, and every other origin and
    every other table shows what it showed before. *)
Theorem decision_event_recorded msg win topWin h w :
  win_top win = Some topWin →
  h ≠ "" →
  h ≠ "__proto__" →
  ledgerEntry (emit_update_settings msg (WObject win) h w).1
    (top_id topWin) h = Some (JStr msg) ∧
  ∀ key origin,
    key ≠ top_id topWin ∨ origin ≠ h →
    ledgerEntry (emit_update_settings msg (WObject win) h w).1 key origin
      = ledgerEntry w key origin.
Proof.
  intros Htop Hh Hproto.
  unfold emit_update_settings, listener_call, updateSettingsListener.
  unfold ledgerEntry, table_set.
  unfold_M. simpl. rewrite Htop. destruct (decide (h = "")); [done|].
  destruct (decide (h = "__proto__")); [done|]. simpl. split.
  - rewrite lookup_insert_eq. simpl. by rewrite lookup_insert_eq.
  - intros key origin Hother.
    destruct (decide (key = top_id topWin)) as [->|Hkey].
    + destruct Hother as [?|Horigin]; [done|].
      rewrite lookup_insert_eq. simpl.
      rewrite lookup_insert_ne by done.
      by destruct (settingsMap w !! top_id topWin).
    + by rewrite lookup_insert_ne.
Qed.

(** X7. A decision event without a window or with an empty origin is
    dropped by the listener, which returns; for an object without a top
    (and an origin) the listener raises [TypeError]; in all three cases
    the state is left as it is, and [emit], which catches what a listener
    raises, returns after adding the event to the trace. *)
Theorem decision_event_dropped msg window h w :
  (window = WNull ∨ h = "" →
   updateSettingsListener msg window h w = (w, Ok tt)) ∧
  (∀ win, window = WObject win → win_top win = None → h ≠ "" →
   updateSettingsListener msg window h w = (w, Throw TypeError)) ∧
  (window = WNull ∨ h = "" ∨
     (∃ win, window = WObject win ∧ win_top win = None) →
   emit_update_settings msg window h w =
     (set_emitted (λ l, l ++ [mkEvent msg window h]) w, Ok tt)).
Proof.
  split; [|split].
  - intros Hdrop. unfold updateSettingsListener.
    destruct window as [|win]; [done|].
    destruct Hdrop as [Hnull|Hempty]; [done|]. by rewrite Hempty.
  - intros win -> Htop Hh. unfold updateSettingsListener.
    rewrite Htop. by destruct (decide (h = "")).
  - intros Hdrop.
    unfold emit_update_settings, listener_call, updateSettingsListener.
    unfold_M. simpl.
    destruct window as [|win]; [done|].
    destruct (decide (h = "")) as [Hempty|Hh]; [done|].
    destruct Hdrop as [Hnull|[Hempty|(win' & Hwin & Htop)]]; [done..|].
    injection Hwin as <-. by rewrite Htop.
Qed.

(** What the ledger shows after an event, in every case. *)
Lemma emit_update_settings_entry msg window h w key origin :
  ledgerEntry (emit_update_settings msg window h w).1 key origin =
    match window with
    | WObject win =>
        match win_top win with
        | Some topWin =>
            if decide (h ≠ "" ∧ h ≠ "__proto__" ∧
                       key = top_id topWin ∧ origin = h)
            then Some (JStr msg) else ledgerEntry w key origin
        | None => ledgerEntry w key origin
        end
    | WNull => ledgerEntry w key origin
    end.
Proof.
  unfold emit_update_settings, listener_call, updateSettingsListener.
  unfold ledgerEntry, table_set.
  unfold_M. simpl. destruct window as [|win]; [done|].
  destruct (win_top win) as [topWin|]; [|by destruct (decide (h = ""))].
  destruct (decide (h = "")) as [->|Hh]; simpl.
  { done. }
  destruct (decide (h = "__proto__")) as [Hproto|Hproto]; simpl.
  { case_decide as Hcase; [naive_solver|].
    destruct (decide (key = top_id topWin)) as [->|Hkey].
    - rewrite lookup_insert_eq. simpl.
      by destruct (settingsMap w !! top_id topWin).
    - by rewrite lookup_insert_ne. }
  destruct (decide (key = top_id topWin)) as [->|Hkey].
  - rewrite lookup_insert_eq. simpl.
    destruct (decide (origin = h)) as [->|Horigin].
    + rewrite lookup_insert_eq. by rewrite decide_True.
    + rewrite lookup_insert_ne by done.
      case_decide as Hcase; [naive_solver|].
      by destruct (settingsMap w !! top_id topWin).
  - rewrite lookup_insert_ne by done.
    case_decide as Hcase; [naive_solver|done].
Qed.

(** An event changes the ledger at its own origin in the table of its
    window's top, and nowhere else. *)
Lemma emit_update_settings_confined msg window h w key origin :
  ledgerEntry (emit_update_settings msg window h w).1 key origin
    ≠ ledgerEntry w key origin →
  origin = h ∧
  ∃ win topWin,
    window = WObject win ∧ win_top win = Some topWin ∧ key = top_id topWin.
Proof.
  rewrite emit_update_settings_entry.
  destruct window as [|win]; [by intros Hne; destruct Hne|].
  destruct (win_top win) as [topWin|] eqn:Htop;
    [|by intros Hne; destruct Hne].
  case_decide as Hcase; [|by intros Hne; destruct Hne]. intros _.
  destruct Hcase as (_ & _ & -> & ->). split; [done|]. by exists win, topWin.
Qed.

Lemma emit_update_settings_confined_run msg window h w m key origin :
  emit_update_settings msg window h w =
    (mkWorld (storage w) m (changedSettings w)
             (emitted w ++ [mkEvent msg window h]) (clobbered w) (reloads w),
     Ok tt) →
  m !! key ≫= (λ table : gmap string JSVal, table !! origin)
    ≠ ledgerEntry w key origin →
  origin = h ∧
  ∃ win topWin,
    window = WObject win ∧ win_top win = Some topWin ∧ key = top_id topWin.
Proof.
  intros Hrun Hne.
  apply (emit_update_settings_confined msg window h w key origin).
  by rewrite Hrun.
Qed.

Ltac run_emit_keep key origin :=
  match goal with
  | |- context [emit_update_settings ?msg ?window ?h ?w] =>
      let m := fresh "m" in
      let Hm := fresh "Hm" in
      destruct (emit_update_settings_run msg window h w) as [m Hm];
      rewrite Hm;
      pose proof (emit_update_settings_confined_run msg window h w m
                    key origin Hm);
      clear Hm
  end.

(** Closes a goal [entry after ≠ entry before → ...] from the facts
    [run_emit_keep] left, for one event or for two in a row. *)
Ltac confined_conclude Hc :=
  let Ho := fresh in
  let win0 := fresh "win" in
  let top0 := fresh "topWin" in
  let Hw := fresh in
  let Ht := fresh in
  let Hk := fresh in
  destruct Hc as (Ho & win0 & top0 & Hw & Ht & Hk);
  split; [exact Ho|]; exists win0, top0;
  split; [first [left; exact Hw | right; exact Hw]|];
  split; assumption.

Ltac confined_by_event :=
  let Hne := fresh "Hne" in
  intros Hne;
  match goal with
  | Hc1 : ?a ≠ ?b → _, Hc2 : ?c ≠ ?a' → _ |- _ =>
      destruct (decide (a = b)) as [Heq|Hneq];
      [ assert (c ≠ a') as Hstep
          by (intros Hstep; apply Hne; unfold ledgerEntry in *;
              simpl in *; congruence);
        specialize (Hc2 Hstep); confined_conclude Hc2
      | specialize (Hc1 Hneq); confined_conclude Hc1 ]
  | Hc : _ ≠ _ → _ |- _ =>
      specialize (Hc Hne); confined_conclude Hc
  end.

Ltac run_policy_keep key origin :=
  unfold_policy; unfold emit_if_window; unfold_M; simpl;
  repeat (first [case_bool_decide | run_emit_keep key origin]; simpl).

Ltac run_emit :=
  match goal with
  | |- context [emit_update_settings ?msg ?window ?h ?w] =>
      let m := fresh "m" in
      destruct (emit_update_settings_run msg window h w) as [m ->]
  end.

Ltac run_policy :=
  unfold_policy; unfold emit_if_window; unfold_M; simpl;
  repeat (first [case_bool_decide | run_emit]; simpl).

Section Decision_tables.
Context `{Platform}.

(** X1. [shouldLoad] returns REJECT exactly when the request is blockable
    and either its host is in [userRed], or its base domain is on the
    heuristic block list while no ignore rule matches (host in
    [userGreen], host or base domain in [userYellow], host in
    [preloads]). *)
Theorem shouldLoad_rejects_iff contentType location node w :
  (shouldLoad contentType location node w).2 = Ok REJECT ↔
  isBlockableRequest location (contextWindow node) None contentType
    = Ok true ∧
  (host location ∈ userRed (storage w) ∨
   (host location ∉ userGreen (storage w)) ∧
   (host location ∉ userYellow (storage w)) ∧
   (getBaseDomain location ∉ userYellow (storage w)) ∧
   (host location ∉ preloads (storage w)) ∧
   getBaseDomain location ∈ blockedOrigins (storage w)).
Proof.
  destruct (isBlockableRequest location (contextWindow node) None
              contentType) as [[]|e] eqn:Hblk.
  - destruct (isBlockableRequest_true_window _ _ _ Hblk)
      as (win & topWin & href & Hwin & _).
    unfold shouldLoad; unfold_M. rewrite Hblk, Hwin. simpl.
    run_policy; naive_solver.
  - rewrite (shouldLoad_not_blockable _ _ _ _ Hblk). naive_solver.
  - rewrite (shouldLoad_blockable_throws _ _ _ _ _ Hblk). naive_solver.
Qed.

(** X2. A blockable request whose host is in [userGreen] and not in
    [userRed] is accepted with exactly the event [usernoaction], also when
    its base domain is on the heuristic block list; no cookie is
    clobbered, and for a non-empty host the table of the window's top then
    shows [usernoaction]. *)
Theorem user_green_accepts contentType location node w :
  host location ∈ userGreen (storage w) →
  host location ∉ userRed (storage w) →
  host location ≠ "" →
  isBlockableRequest location (contextWindow node) None contentType
    = Ok true →
  ∃ w' win topWin,
    shouldLoad contentType location node w = (w', Ok ACCEPT) ∧
    emitted w' = emitted w ++
      [mkEvent "usernoaction" (contextWindow node) (host location)] ∧
    clobbered w' = clobbered w ∧
    contextWindow node = WObject win ∧ win_top win = Some topWin ∧
    ledgerEntry w' (top_id topWin) (host location)
      = Some (JStr "usernoaction").
Proof.
  intros Hgreen Hred Hhost Hblk.
  destruct (isBlockableRequest_true_window _ _ _ Hblk)
    as (win & topWin & href & Hwin & Htop & _).
  assert (host location ≠ "__proto__") as Hproto
    by (apply (not_listed_not_proto _ (storage w)); naive_solver).
  destruct (emit_update_settings_ledger "usernoaction" win topWin
              (host location) w Htop Hhost Hproto)
    as (table & Htable & Hentry).
  destruct (emit_update_settings_run "usernoaction" (WObject win)
              (host location) w) as [m' Hrun].
  exists (emit_update_settings "usernoaction" (WObject win)
            (host location) w).1, win, topWin.
  rewrite Hwin. repeat split; try done.
  - unfold_policy; unfold emit_if_window; unfold_M.
    rewrite Hblk, Hwin. simpl. known_tests. simpl. known_tests.
    by rewrite Hrun.
  - by rewrite Hrun.
  - by rewrite Hrun.
  - unfold ledgerEntry. by rewrite Htable.
Qed.

(** X3. A call of [shouldLoad] emits at most one event; the event is for
    the window and the host of the request, and its tag is one of
    [userblock], [usernoaction], [usercookieblock] and [block]. *)
Theorem shouldLoad_emits_at_most_once contentType location node w :
  ∃ evs,
    emitted (shouldLoad contentType location node w).1
      = emitted w ++ evs ∧
    (length evs ≤ 1)%nat ∧
    ∀ ev, ev ∈ evs →
      ev_win ev = contextWindow node ∧ ev_origin ev = host location ∧
      ev_msg ev ∈ ["userblock"; "usernoaction"; "usercookieblock"; "block"].
Proof.
  assert (∀ l : list Event, ∃ evs : list Event,
    l = l ++ evs ∧ (length evs ≤ 1)%nat ∧
    ∀ ev, ev ∈ evs →
      ev_win ev = contextWindow node ∧ ev_origin ev = host location ∧
      ev_msg ev ∈ ["userblock"; "usernoaction"; "usercookieblock"; "block"])
    as Hnone.
  { intros l. exists []. rewrite app_nil_r. repeat split; [simpl; lia|..];
      by apply elem_of_nil in H0. }
  destruct (isBlockableRequest location (contextWindow node) None
              contentType) as [[]|e] eqn:Hblk.
  - destruct (isBlockableRequest_true_window _ _ _ Hblk)
      as (win & topWin & href & Hwin & _).
    unfold shouldLoad; unfold_M. rewrite Hblk. rewrite Hwin in *. simpl.
    run_policy; try apply Hnone;
      (eexists [_]; split; [reflexivity|]; split; [simpl; lia|];
       intros ev ->%list_elem_of_singleton; simpl;
       repeat split; set_solver).
  - rewrite (shouldLoad_not_blockable _ _ _ _ Hblk). apply Hnone.
  - rewrite (shouldLoad_blockable_throws _ _ _ _ _ Hblk). apply Hnone.
Qed.

(** X4. [shouldBlockRequest] answers true exactly when the host is in
    [userRed] or the base domain is on the heuristic block list; unlike
    [shouldLoad] it consults no ignore rule. *)
Theorem shouldBlockRequest_result location window w :
  (shouldBlockRequest location window w).2 = Ok true ↔
  host location ∈ userRed (storage w) ∨
  getBaseDomain location ∈ blockedOrigins (storage w).
Proof.
  destruct window as [|win]; run_policy; naive_solver.
Qed.

(** X5. When [shouldCookieblockRequest] answers true, the host or the base
    domain is in [userYellow], or the base domain is in [userRed] or on the
    heuristic block list; and when the base domain is in one of these three
    lists it does answer true, whatever the preload list holds, and it
    clobbers the host's cookie, once, unless the host itself is in
    [userYellow]. *)
Theorem shouldCookieblockRequest_table location window w :
  ((shouldCookieblockRequest location window w).2 = Ok true →
   host location ∈ userYellow (storage w) ∨
   getBaseDomain location ∈ userYellow (storage w) ∨
   getBaseDomain location ∈ userRed (storage w) ∨
   getBaseDomain location ∈ blockedOrigins (storage w)) ∧
  (getBaseDomain location ∈ userYellow (storage w) ∨
   getBaseDomain location ∈ userRed (storage w) ∨
   getBaseDomain location ∈ blockedOrigins (storage w) →
   (shouldCookieblockRequest location window w).2 = Ok true ∧
   clobbered (shouldCookieblockRequest location window w).1 =
     clobbered w ++
       if bool_decide (host location ∈ userYellow (storage w)) then []
       else [host location]).
Proof.
  destruct window as [|win]; run_policy; rewrite ?app_nil_r;
    naive_solver.
Qed.

(** X8. When the base domain is on the heuristic block list and the host
    is not in [userRed], [shouldBlockRequest] answers true and emits
    [block], whatever [userGreen], [userYellow] and [preloads] contain, and
    the table of the window's top then shows [block] for the host in place
    of what it showed before. *)
Theorem shouldBlockRequest_records_block location win topWin w :
  getBaseDomain location ∈ blockedOrigins (storage w) →
  host location ∉ userRed (storage w) →
  win_top win = Some topWin →
  host location ≠ "" →
  ∃ w',
    shouldBlockRequest location (WObject win) w = (w', Ok true) ∧
    emitted w' = emitted w ++
      [mkEvent "block" (WObject win) (host location)] ∧
    ledgerEntry w' (top_id topWin) (host location) = Some (JStr "block").
Proof.
  intros Hblocked Hred Htop Hhost.
  assert (host location ≠ "__proto__") as Hproto
    by (apply (not_listed_not_proto _ (storage w)); naive_solver).
  pose proof (emit_update_settings_entry "block" (WObject win)
                (host location) w (top_id topWin) (host location)) as Hentry.
  simpl in Hentry. rewrite Htop, decide_True in Hentry by done.
  destruct (emit_update_settings_run "block" (WObject win)
              (host location) w) as [m' Hrun].
  exists (emit_update_settings "block" (WObject win) (host location) w).1.
  split; [|split; [by rewrite Hrun|done]].
  unfold_policy; unfold_M. simpl. known_tests. simpl. known_tests.
  by rewrite Hrun.
Qed.

(** X9. For a host that is preloaded (itself or its base domain) and
    matched by no other rule, [shouldCookieblockRequest] answers false and
    clobbers nothing, but it emits [noaction], and the table of the
    window's top then shows [noaction] for the host in place of what it
    showed before. *)
Theorem preloaded_unflagged_noaction location win topWin w :
  host location ∈ preloads (storage w) ∨
    getBaseDomain location ∈ preloads (storage w) →
  getBaseDomain location ∉ blockedOrigins (storage w) →
  host location ∉ userYellow (storage w) →
  getBaseDomain location ∉ userYellow (storage w) →
  getBaseDomain location ∉ userRed (storage w) →
  win_top win = Some topWin →
  host location ≠ "" →
  ∃ w',
    shouldCookieblockRequest location (WObject win) w = (w', Ok false) ∧
    emitted w' = emitted w ++
      [mkEvent "noaction" (WObject win) (host location)] ∧
    clobbered w' = clobbered w ∧
    ledgerEntry w' (top_id topWin) (host location)
      = Some (JStr "noaction").
Proof.
  intros Hpre Hblocked Hyellow Hbase Hred Htop Hhost.
  assert (host location ≠ "__proto__") as Hproto
    by (apply (not_listed_not_proto _ (storage w)); naive_solver).
  pose proof (emit_update_settings_entry "noaction" (WObject win)
                (host location) w (top_id topWin) (host location)) as Hentry.
  simpl in Hentry. rewrite Htop, decide_True in Hentry by done.
  destruct (emit_update_settings_run "noaction" (WObject win)
              (host location) w) as [m' Hrun].
  exists (emit_update_settings "noaction" (WObject win) (host location) w).1.
  split; [|split; [by rewrite Hrun|split; [by rewrite Hrun|done]]].
  unfold_policy; unfold_M. simpl. known_tests. simpl.
  assert (bool_decide (host location ∈ preloads (storage w))
          || bool_decide (getBaseDomain location ∈ preloads (storage w))
          = true) as ->.
  { apply orb_true_iff.
    destruct Hpre; [left|right]; by apply bool_decide_eq_true_2. }
  rewrite Hrun. simpl. by known_tests.
Qed.

(** X10. Whatever [shouldLoad], [shouldBlockRequest] and
    [shouldCookieblockRequest] change in the ledger is the entry of the
    request's host in the table of the top of the request's window: every
    other origin and every other table shows what it showed before. *)
Theorem policy_changes_confined contentType location node window w
    key origin :
  ledgerEntry (shouldLoad contentType location node w).1 key origin
    ≠ ledgerEntry w key origin ∨
  ledgerEntry (shouldBlockRequest location window w).1 key origin
    ≠ ledgerEntry w key origin ∨
  ledgerEntry (shouldCookieblockRequest location window w).1 key origin
    ≠ ledgerEntry w key origin →
  origin = host location ∧
  ∃ win topWin,
    (contextWindow node = WObject win ∨ window = WObject win) ∧
    win_top win = Some topWin ∧ key = top_id topWin.
Proof.
  assert (∀ P : Prop, ledgerEntry w key origin ≠ ledgerEntry w key origin → P)
    as Hsame by (by intros P Hne; destruct Hne).
  intros [Hne|[Hne|Hne]]; revert Hne.
  - destruct (isBlockableRequest location (contextWindow node) None
                contentType) as [[]|e] eqn:Hblk.
    + destruct (isBlockableRequest_true_window _ _ _ Hblk)
        as (win & topWin & href & Hwin & _).
      unfold shouldLoad; unfold_M. rewrite Hblk.
      rewrite Hwin in *. simpl.
      run_policy_keep key origin; try exact (Hsame _); confined_by_event.
    + rewrite (shouldLoad_not_blockable _ _ _ _ Hblk). apply Hsame.
    + rewrite (shouldLoad_blockable_throws _ _ _ _ _ Hblk). apply Hsame.
  - destruct window as [|win];
      run_policy_keep key origin; try exact (Hsame _); confined_by_event.
  - destruct window as [|win];
      run_policy_keep key origin; try exact (Hsame _); confined_by_event.
Qed.

(** X11. With a channel, [isBlockableRequest] never raises and looks at
    neither the window nor the content type: the request is blockable
    exactly when its scheme is not whitelisted and the platform calls the
    channel third-party; when that comparison raises, the request is not
    blockable. *)
Theorem isBlockableRequest_channel location window channel contentType :
  isBlockableRequest location window (Some channel) contentType =
    Ok (negb (hasWhitelistedScheme location)
        && bool_decide (tpu_isThirdPartyChannel channel = Some true)).
Proof.
  unfold isBlockableRequest, isThirdPartyChannel.
  destruct (hasWhitelistedScheme location); [done|].
  by destruct (tpu_isThirdPartyChannel channel) as [[]|].
Qed.

End Decision_tables.

(** ** Navigation and the ledger *)

(** X12. A location change touches nothing but the table of the window
    that changed location: every other table, the rule lists, the staged
    edits and the traces stay as they are; and a same-document change
    leaves the whole state as it is. *)
Theorem location_change_scope aFlags win w :
  (∀ key, key ≠ win_id win →
     settingsMap (onLocationChange aFlags win w).1 !! key
       = settingsMap w !! key) ∧
  set_settingsMap (λ _, settingsMap w) (onLocationChange aFlags win w).1
    = w ∧
  (aFlags = LOCATION_CHANGE_SAME_DOCUMENT →
   onLocationChange aFlags win w = (w, Ok tt)).
Proof.
  unfold onLocationChange, clearSettingsListener; unfold_M.
  split; [|split].
  - intros key Hkey. case_match; simpl; [|done].
    by rewrite lookup_delete_ne.
  - destruct w. by case_match.
  - by intros ->.
Qed.

(** X13. Decisions are recorded under the top of the window they are
    emitted for, and a location change clears the table of the window that
    changed location: so a decision emitted for a frame, for an origin
    other than the empty string and [__proto__], survives a location change
    of that frame, and is read back from the tab's top window. *)
Theorem frame_navigation_keeps_decision msg frame topObject topWin h
    aFlags w :
  win_top frame = Some topWin →
  win_id topObject = top_id topWin →
  win_id frame ≠ top_id topWin →
  h ≠ "" →
  h ≠ "__proto__" →
  ∃ table,
    (getCurrentSettings topObject
       (onLocationChange aFlags frame
          (emit_update_settings msg (WObject frame) h w).1).1).2
      = Ok table ∧
    table !! h = Some (JStr msg).
Proof.
  intros Htop Hid Hframe Hh Hproto.
  destruct (emit_update_settings_ledger msg frame topWin h w Htop Hh Hproto)
    as (table & Htable & Hentry).
  exists table. split; [|done].
  unfold getCurrentSettings, onLocationChange, clearSettingsListener.
  unfold_M. rewrite Hid. case_match; simpl.
  - rewrite lookup_delete_ne by done. by rewrite Htable.
  - by rewrite Htable.
Qed.

(** ** Staging and committing *)

Lemma obj_put_elem k v (o : list (string * string)) k' v' :
  (k', v') ∈ obj_put k v o → (k', v') = (k, v) ∨ (k', v') ∈ o.
Proof.
  induction o as [|[k0 v0] o IH]; simpl.
  - intros ->%list_elem_of_singleton. by left.
  - case_decide; rewrite !elem_of_cons; naive_solver.
Qed.

Lemma obj_put_elem_own k v (o : list (string * string)) :
  (k, v) ∈ obj_put k v o.
Proof.
  induction o as [|[k0 v0] o IH]; simpl.
  - by apply list_elem_of_singleton.
  - case_decide; rewrite elem_of_cons; naive_solver.
Qed.

Lemma obj_put_elem_other k v (o : list (string * string)) k' v' :
  k' ≠ k → (k', v') ∈ obj_put k v o ↔ (k', v') ∈ o.
Proof.
  intros Hne. induction o as [|[k0 v0] o IH]; simpl.
  - rewrite list_elem_of_singleton. split; [naive_solver|].
    by intros ?%elem_of_nil.
  - case_decide; rewrite !elem_of_cons; naive_solver.
Qed.

Lemma obj_put_keys k v (o : list (string * string)) :
  NoDup o.*1 →
  NoDup (obj_put k v o).*1 ∧ ∀ v', (k, v') ∈ obj_put k v o → v' = v.
Proof.
  induction o as [|[k0 v0] o IH]; simpl; intros Hnodup.
  - split; [apply NoDup_singleton|].
    intros v' Hin%list_elem_of_singleton. by injection Hin.
  - apply NoDup_cons in Hnodup as [Hfresh Hnodup].
    destruct (IH Hnodup) as [IHnodup IHown].
    case_decide as Hk.
    + subst k0. split; [simpl; by apply NoDup_cons|].
      intros v'. rewrite elem_of_cons. intros [Heq|Hin]; [by injection Heq|].
      destruct Hfresh. apply list_elem_of_fmap. by exists (k, v').
    + split.
      * simpl. apply NoDup_cons. split; [|done].
        intros ((k' & v') & Hfst & Hin)%list_elem_of_fmap. simpl in Hfst.
        subst k'. apply obj_put_elem_other in Hin; [|done].
        destruct Hfresh. apply list_elem_of_fmap. by exists (k0, v').
      * intros v'. rewrite elem_of_cons. intros [Heq|Hin]; [|by apply IHown].
        injection Heq as Heq _. by destruct Hk.
Qed.

Lemma obj_set_elem k v (o : list (string * string)) k' v' :
  (k', v') ∈ obj_set k v o →
  (k', v') = (k, v) ∧ k ≠ "__proto__" ∨ (k', v') ∈ o.
Proof.
  unfold obj_set. case_decide as Hk; [by right|].
  intros [Hown|Hin]%obj_put_elem; [left|right]; done.
Qed.

Lemma obj_set_elem_own k v (o : list (string * string)) :
  k ≠ "__proto__" → (k, v) ∈ obj_set k v o.
Proof.
  intros Hk. unfold obj_set. rewrite decide_False by done.
  apply obj_put_elem_own.
Qed.

Lemma obj_set_elem_other k v (o : list (string * string)) k' v' :
  k' ≠ k → (k', v') ∈ obj_set k v o ↔ (k', v') ∈ o.
Proof.
  intros Hne. unfold obj_set. case_decide; [done|].
  by apply obj_put_elem_other.
Qed.

(** X14. Staging an edit keeps the staged origins distinct and leaves the
    tags staged for other origins as they are; for an origin other than
    [__proto__] it stages the given tag in place of any tag staged for the
    origin before, and for [__proto__] it stages nothing. *)
Theorem handleUpdate_stages origin action w :
  NoDup (changedSettings w).*1 →
  NoDup (changedSettings (handleUpdate origin action w).1).*1 ∧
  (origin ≠ "__proto__" →
   ∀ action',
     (origin, action') ∈ changedSettings (handleUpdate origin action w).1
     ↔ action' = action) ∧
  (∀ origin' action',
     origin' ≠ origin →
     (origin', action') ∈ changedSettings (handleUpdate origin action w).1
     ↔ (origin', action') ∈ changedSettings w) ∧
  (origin = "__proto__" →
   changedSettings (handleUpdate origin action w).1 = changedSettings w).
Proof.
  unfold handleUpdate; unfold_M. simpl. intros Hnodup.
  destruct (obj_put_keys origin action _ Hnodup) as [Hkeys Hown].
  split; [|split; [|split]].
  - unfold obj_set. by case_decide.
  - intros Hproto action'. unfold obj_set. rewrite decide_False by done.
    split; [apply Hown|]. intros ->. apply obj_put_elem_own.
  - intros origin' action' Hne. by apply obj_set_elem_other.
  - intros ->. done.
Qed.

Section Commit_more.
Context `{UserStorage}.

(** X15. Closing the panel with nothing staged changes nothing and reloads
    nothing; closing it with staged edits reloads the tab once; in both
    cases the staging object is empty afterwards and the ledger and the
    traces of events and clobbered cookies are as before. *)
Theorem onHide_effects w :
  changedSettings (onHide w).1 = [] ∧
  settingsMap (onHide w).1 = settingsMap w ∧
  emitted (onHide w).1 = emitted w ∧
  clobbered (onHide w).1 = clobbered w ∧
  (changedSettings w = [] → onHide w = (w, Ok tt)) ∧
  (changedSettings w ≠ [] →
   reloads (onHide w).1 = S (reloads w) ∧
   storage (onHide w).1 = applySettings (changedSettings w) (storage w)).
Proof.
  unfold onHide, handleNewSettings; unfold_M.
  destruct w as [st m staged evs cl n]. simpl.
  destruct staged as [|edit staged]; simpl; [by repeat split|].
  repeat split; done.
Qed.

(** X16. When an origin is toggled twice before the panel is closed, the
    commit is the one of the last toggle alone: the first tag is replaced
    in the staging object, not applied before the second. *)
Theorem last_edit_wins origin action action' w :
  onHide (handleUpdate origin action' (handleUpdate origin action w).1).1
  = onHide (handleUpdate origin action' w).1.
Proof.
  assert (∀ o : list (string * string),
    obj_set origin action' (obj_set origin action o)
    = obj_set origin action' o) as Hset.
  { intros o. unfold obj_set. case_decide; [done|].
    induction o as [|[k v] o IH]; simpl.
    - by rewrite decide_True.
    - case_decide as Hk; simpl.
      + by rewrite decide_True.
      + rewrite decide_False by done. by rewrite IH. }
  unfold handleUpdate; unfold_M. simpl.
  unfold set_changedSettings. simpl. by rewrite Hset.
Qed.

End Commit_more.

(** ** The popup *)

Lemma string_length_append (s1 s2 : string) :
  String.length (String.append s1 s2)
  = (String.length s1 + String.length s2)%nat.
Proof. induction s1 as [|c s1 IH]; simpl; [done|]. by rewrite IH. Qed.

Lemma string_length_substring_0 (n : nat) (s : string) :
  String.length (String.substring 0 n s) = Nat.min n (String.length s).
Proof.
  revert n. induction s as [|c s IH]; intros [|n]; simpl; try done.
  by rewrite IH.
Qed.

(** X17. For a limit of at least 3, [_trim] returns a string of at most
    the limit: a string shorter than the limit is returned as it is, and a
    string of the limit's length or longer becomes its first [max - 3]
    characters followed by three dots, which has exactly the limit's
    length. *)
Theorem trim_length str max :
  (3 ≤ max)%Z →
  Z.of_nat (String.length (_trim str max))
    = Z.min (Z.of_nat (String.length str)) max ∧
  ((Z.of_nat (String.length str) < max)%Z → _trim str max = str) ∧
  ((max ≤ Z.of_nat (String.length str))%Z →
   _trim str max
   = String.append (String.substring 0 (Z.to_nat (max - 3)) str) "...").
Proof.
  intros Hmax. unfold _trim, js_slice.
  destruct (Z.geb_spec (Z.of_nat (String.length str)) max) as [Hlong|Hshort].
  - assert ((0 <? 0)%Z = false) as -> by done.
    assert ((max - 3 <? 0)%Z = false) as -> by (apply Z.ltb_ge; lia).
    replace (Z.min 0 (Z.of_nat (String.length str))) with 0%Z by lia.
    replace (Z.max (Z.min (max - 3) (Z.of_nat (String.length str)) - 0) 0)
      with (max - 3)%Z by lia.
    simpl Z.to_nat. split; [|split; [lia|done]].
    rewrite string_length_append, string_length_substring_0. simpl. lia.
  - split; [lia|]. split; [done|lia].
Qed.

Lemma hasClass_addClass c c' elt :
  hasClass c (addClass c' elt) = bool_decide (c = c') || hasClass c elt.
Proof.
  unfold hasClass, addClass. simpl.
  repeat case_bool_decide; simpl; set_solver.
Qed.

Lemma hasClass_removeClass c c' elt :
  hasClass c (removeClass c' elt)
  = negb (bool_decide (c = c')) && hasClass c elt.
Proof.
  unfold hasClass, removeClass. simpl.
  repeat case_bool_decide; simpl; set_solver.
Qed.

Lemma toggleBlockedStatus_status elt status :
  status ∈ ["block"; "cookieblock"; "noaction"] →
  getCurrentClass (toggleBlockedStatus elt status) = status ∧
  hasClass "userset" (toggleBlockedStatus elt status) = true ∧
  data_origin (toggleBlockedStatus elt status) = data_origin elt ∧
  data_original_action (toggleBlockedStatus elt status)
    = data_original_action elt.
Proof.
  intros Hstatus.
  assert (status = "block" ∨ status = "cookieblock" ∨ status = "noaction")
    as [-> | [-> | ->]] by set_solver;
    unfold toggleBlockedStatus, getCurrentClass; simpl;
    by rewrite ?hasClass_addClass, ?hasClass_removeClass.
Qed.

(** X18. After a toggle of an element to one of the three actions, the
    element's current class is that action and the element is marked
    [userset], also when the action is the original one; its attributes
    and its other classes are as before, and toggling it to the same action
    again changes nothing. *)
Theorem toggle_then_read elt status :
  status ∈ ["block"; "cookieblock"; "noaction"] →
  getCurrentClass (toggleBlockedStatus elt status) = status ∧
  hasClass "userset" (toggleBlockedStatus elt status) = true ∧
  data_origin (toggleBlockedStatus elt status) = data_origin elt ∧
  data_original_action (toggleBlockedStatus elt status)
    = data_original_action elt ∧
  (∀ c, c ∉ ["block"; "cookieblock"; "noaction"; "userset"] →
        hasClass c (toggleBlockedStatus elt status) = hasClass c elt) ∧
  toggleBlockedStatus (toggleBlockedStatus elt status) status
    = toggleBlockedStatus elt status.
Proof.
  intros Hstatus.
  assert (status = "block" ∨ status = "cookieblock" ∨ status = "noaction")
    as [-> | [-> | ->]] by set_solver;
    unfold toggleBlockedStatus, getCurrentClass; simpl;
    rewrite ?hasClass_addClass, ?hasClass_removeClass; simpl;
    (repeat split; try done;
     [ intros c Hc; rewrite ?hasClass_addClass, ?hasClass_removeClass;
       repeat case_bool_decide; simpl; set_solver
     | unfold addClass, removeClass; simpl; f_equal; set_solver ]).
Qed.

(** One step of the loop of [buildSettingsDict]. *)
Lemma buildSettingsDict_snoc clickers elt :
  buildSettingsDict (clickers ++ [elt]) =
    if hasClass "userset" elt
       && negb (String.eqb (getCurrentClass elt) (data_original_action elt))
    then obj_set (data_origin elt) (getCurrentClass elt)
                 (buildSettingsDict clickers)
    else buildSettingsDict clickers.
Proof.
  unfold buildSettingsDict. rewrite foldl_app. simpl.
  unfold getCurrentClass. by repeat case_match.
Qed.

(** What [buildSettingsDict] reports comes from a toggled element. *)
Lemma buildSettingsDict_elem clickers origin action :
  (origin, action) ∈ buildSettingsDict clickers →
  origin ≠ "__proto__" ∧
  ∃ elt, elt ∈ clickers ∧ data_origin elt = origin ∧
         hasClass "userset" elt = true ∧
         getCurrentClass elt = action ∧
         action ≠ data_original_action elt.
Proof.
  induction clickers as [|elt clickers IH] using rev_ind.
  - by intros ?%elem_of_nil.
  - rewrite buildSettingsDict_snoc.
    assert ((origin, action) ∈ buildSettingsDict clickers →
      origin ≠ "__proto__" ∧
      ∃ e, e ∈ clickers ++ [elt] ∧ data_origin e = origin ∧
           hasClass "userset" e = true ∧
           getCurrentClass e = action ∧
           action ≠ data_original_action e) as Hrest.
    { intros (Hproto & e & He & Hrest)%IH. split; [done|]. exists e.
      split; [apply elem_of_app; by left|done]. }
    destruct (hasClass "userset" elt) eqn:Huserset; simpl; [|done].
    destruct (String.eqb_spec (getCurrentClass elt)
                (data_original_action elt)) as [Hsame|Hdiff]; simpl; [done|].
    intros [[Heq Hproto]|Hin]%obj_set_elem; [|by apply Hrest].
    injection Heq as -> ->. split; [done|]. exists elt. split; [|done].
    apply elem_of_app. right. by apply list_elem_of_singleton.
Qed.

(** X19. [buildSettingsDict] reports an element exactly when it is marked
    [userset] and its current class differs from its original action, and
    it reports the current class: for elements with distinct origins and an
    origin other than [__proto__], the dictionary holds [(origin, action)]
    exactly when such an element has that origin and that current class.
    It holds nothing for [__proto__], and every tag in it is one of
    [block], [cookieblock] and [noaction]. *)
Theorem buildSettingsDict_entries clickers origin action :
  NoDup (data_origin <$> clickers) →
  (origin ≠ "__proto__" →
   (origin, action) ∈ buildSettingsDict clickers ↔
   ∃ elt, elt ∈ clickers ∧ data_origin elt = origin ∧
          hasClass "userset" elt = true ∧
          getCurrentClass elt = action ∧
          action ≠ data_original_action elt) ∧
  (("__proto__", action) ∉ buildSettingsDict clickers) ∧
  ((origin, action) ∈ buildSettingsDict clickers →
   action ∈ ["block"; "cookieblock"; "noaction"]).
Proof.
  intros Hnodup. split; [|split].
  - intros Hproto. split; [by intros [_ ?]%buildSettingsDict_elem|].
    revert Hnodup.
    induction clickers as [|elt clickers IH] using rev_ind; intros Hnodup.
    { by intros (elt & ?%elem_of_nil & _). }
    rewrite fmap_app in Hnodup. simpl in Hnodup.
    apply NoDup_app in Hnodup as (Hnodup & Hfresh & _).
    specialize (IH Hnodup). rewrite buildSettingsDict_snoc.
    assert (∀ e, e ∈ clickers → data_origin e ≠ data_origin elt) as Hother.
    { intros e He Heq. apply (Hfresh (data_origin elt)).
      - rewrite <- Heq. by apply list_elem_of_fmap_2.
      - by apply list_elem_of_singleton. }
    intros (e & [He|He]%elem_of_app & Horigin & Hu & Hclass & Hne).
    + assert ((origin, action) ∈ buildSettingsDict clickers) as Hin
        by (apply IH; by exists e).
      repeat case_match; try done.
      apply obj_set_elem_other; [|done].
      rewrite <- Horigin. by apply Hother.
    + apply list_elem_of_singleton in He. subst e.
      rewrite Hu. simpl.
      destruct (String.eqb_spec (getCurrentClass elt)
                  (data_original_action elt)) as [Hsame|Hdiff]; simpl.
      * destruct Hne. by rewrite <- Hclass.
      * subst origin action. by apply obj_set_elem_own.
  - by intros [Hproto _]%buildSettingsDict_elem.
  - intros (_ & elt & _ & _ & _ & <- & _)%buildSettingsDict_elem.
    unfold getCurrentClass. repeat case_match; set_solver.
Qed.

(** X20. After one toggle of an element, whose origin is not [__proto__],
    to one of the three actions, [buildSettingsDict] on that element holds
    exactly that action for the element's origin when the action differs
    from the original one, and is empty when it is the original one. *)
Theorem toggle_then_build elt status :
  status ∈ ["block"; "cookieblock"; "noaction"] →
  data_origin elt ≠ "__proto__" →
  buildSettingsDict [toggleBlockedStatus elt status] =
    if String.eqb status (data_original_action elt) then []
    else [(data_origin elt, status)].
Proof.
  intros Hstatus Hproto.
  destruct (toggleBlockedStatus_status elt status Hstatus)
    as (Hclass & Huserset & Horigin & Horiginal).
  change [toggleBlockedStatus elt status]
    with ([] ++ [toggleBlockedStatus elt status]).
  rewrite buildSettingsDict_snoc.
  rewrite Hclass, Huserset, Horigin, Horiginal.
  destruct (String.eqb status (data_original_action elt)); [done|].
  simpl. unfold obj_set. by rewrite decide_False.
Qed.

(** X21. The rows rendered for a table whose tags are among the six
    decision tags stage nothing as long as none is toggled: the class a row
    is rendered with is its original action, with or without the [user]
    prefix of the tag. *)
Theorem untouched_popup_stages_nothing (settings : list (string * string)) :
  (∀ origin tag, (origin, tag) ∈ settings →
     tag ∈ ["noaction"; "block"; "cookieblock";
            "usernoaction"; "userblock"; "usercookieblock"]) →
  buildSettingsDict ((λ ot, originClicker ot.1 ot.2) <$> settings) = [].
Proof.
  induction settings as [|[origin tag] settings IH] using rev_ind;
    intros Htags; [done|].
  rewrite fmap_app. simpl. rewrite buildSettingsDict_snoc.
  rewrite IH by (intros o t Hin; apply (Htags o t), elem_of_app; by left).
  assert (tag ∈ ["noaction"; "block"; "cookieblock";
                 "usernoaction"; "userblock"; "usercookieblock"]) as Htag.
  { apply (Htags origin tag), elem_of_app. right.
    by apply list_elem_of_singleton. }
  repeat (apply elem_of_cons in Htag as [->|Htag]; [by vm_compute|]).
  by apply elem_of_nil in Htag.
Qed.

(** ** The tags in the ledger *)

Lemma keeps_tagged_ret {A} (a : A) : keeps_tagged (ret a).
Proof. by intros w Hw. Qed.

Lemma keeps_tagged_liftRes {A} (r : Res A) : keeps_tagged (liftRes r).
Proof. by intros w Hw. Qed.

Lemma keeps_tagged_bind {A B} (c : M A) (k : A → M B) :
  keeps_tagged c → (∀ a, keeps_tagged (k a)) → keeps_tagged (bind c k).
Proof.
  intros Hc Hk w Hw. specialize (Hc w Hw). unfold bind.
  destruct (c w) as [w' [a|e]]; [by apply Hk|done].
Qed.

Lemma keeps_tagged_gets {A B} (f : World → A) (k : A → M B) :
  (∀ a, keeps_tagged (k a)) → keeps_tagged (bind (gets f) k).
Proof. intros Hk w Hw. unfold bind, gets. by apply Hk. Qed.

Lemma keeps_tagged_emit msg window h :
  msg ∈ decisionTags → keeps_tagged (emit_update_settings msg window h).
Proof.
  intros Hmsg w Hw key origin v.
  rewrite emit_update_settings_entry.
  destruct window as [|win]; [apply Hw|].
  destruct (win_top win); [|apply Hw].
  case_decide; [|apply Hw]. intros [= <-]. by exists msg.
Qed.

Lemma keeps_tagged_clobber h :
  keeps_tagged (modify (set_clobbered (λ l, l ++ [h]))).
Proof. by intros w Hw. Qed.

Ltac keeps_tagged_step :=
  first
    [ apply keeps_tagged_ret
    | apply keeps_tagged_liftRes
    | apply keeps_tagged_emit; unfold decisionTags; set_solver
    | apply keeps_tagged_clobber
    | apply keeps_tagged_gets; intros ?
    | apply keeps_tagged_bind; [|intros ?]
    | match goal with
      | |- keeps_tagged (if ?b then _ else _) => destruct b
      | |- keeps_tagged (match ?x with _ => _ end) => destruct x
      end ].

Ltac keeps_tagged_tac :=
  unfold_policy; unfold emit_if_window, orM; repeat keeps_tagged_step.

Section Tags.
Context `{Platform}.

(** X22. The policy writes nothing but the six decision tags into the
    ledger: when every entry is one of them, then so is every entry after
    [shouldLoad], [shouldBlockRequest], [shouldCookieblockRequest] and a
    location change. *)
Theorem ledger_holds_decision_tags contentType location node window
    aFlags win w :
  ledgerTagged w →
  ledgerTagged (shouldLoad contentType location node w).1 ∧
  ledgerTagged (shouldBlockRequest location window w).1 ∧
  ledgerTagged (shouldCookieblockRequest location window w).1 ∧
  ledgerTagged (onLocationChange aFlags win w).1.
Proof.
  intros Hw. repeat split.
  - revert w Hw. change (keeps_tagged (shouldLoad contentType location node)).
    keeps_tagged_tac.
  - revert w Hw. change (keeps_tagged (shouldBlockRequest location window)).
    keeps_tagged_tac.
  - revert w Hw.
    change (keeps_tagged (shouldCookieblockRequest location window)).
    keeps_tagged_tac.
  - intros key origin v. unfold onLocationChange, clearSettingsListener.
    unfold_M. case_match; simpl; [|apply Hw].
    unfold ledgerEntry. simpl.
    destruct (decide (key = win_id win)) as [->|Hkey].
    + by rewrite lookup_delete_eq.
    + rewrite lookup_delete_ne by done. apply Hw.
Qed.

End Tags.

(** ** Which requests are blockable *)

Section Blockable_more.
Context `{Platform}.

(** X23. Without a channel and with an object as window, a request is
    blockable exactly when its scheme is not whitelisted, it is no
    document load, the window's top has a non-empty [location.href], and
    the third-party comparison with that address does not answer false:
    an answer true and an exception both make it blockable. *)
Theorem isBlockableRequest_iff location win contentType :
  isBlockableRequest location (WObject win) None contentType = Ok true ↔
  hasWhitelistedScheme location = false ∧
  contentType ≠ TYPE_DOCUMENT ∧
  ∃ topWin href,
    win_top win = Some topWin ∧ top_href topWin = Some href ∧ href ≠ "" ∧
    isThirdPartyURI (spec location) href ≠ Ok false.
Proof.
  unfold isBlockableRequest.
  destruct (hasWhitelistedScheme location);
    [split; [discriminate|by intros [? _]]|].
  destruct (Z.eqb_spec contentType TYPE_DOCUMENT);
    [split; [discriminate|by intros (_ & ? & _)]|].
  destruct (win_top win) as [topWin|] eqn:Htop;
    [|split; [discriminate|by intros (_ & _ & ? & ? & ? & _)]].
  destruct (top_href topWin) as [href|] eqn:Hhref;
    [|split; [discriminate|];
      intros (_ & _ & ? & ? & [= <-] & ? & _); congruence].
  destruct (String.eqb_spec href "") as [->|Hnonempty];
    [split; [discriminate|];
     intros (_ & _ & ? & ? & [= <-] & ? & ? & _); congruence|].
  destruct (isThirdPartyURI (spec location) href) as [[]|e] eqn:Hparty.
  - split; [|done]. intros _. repeat split; try done.
    exists topWin, href. by rewrite Hparty.
  - split; [discriminate|].
    intros (_ & _ & ? & ? & [= <-] & Hhref' & _ & Hne).
    rewrite Hhref in Hhref'. injection Hhref' as <-.
    by rewrite Hparty in Hne.
  - split; [|done]. intros _. repeat split; try done.
    exists topWin, href. by rewrite Hparty.
Qed.

(** X24. A request that the comparison calls first-party is accepted
    without an event and without a change of state, whatever the rule
    lists contain: also a host in [userRed] is loaded as first party. *)
Theorem first_party_accepted contentType location node win topWin href w :
  contextWindow node = WObject win →
  win_top win = Some topWin →
  top_href topWin = Some href →
  isThirdPartyURI (spec location) href = Ok false →
  shouldLoad contentType location node w = (w, Ok ACCEPT).
Proof.
  intros Hwin Htop Hhref Hparty. apply shouldLoad_not_blockable.
  unfold isBlockableRequest. rewrite Hwin, Htop, Hhref, Hparty.
  by repeat case_match.
Qed.

End Blockable_more.

(** ** The further properties on concrete inputs *)

Lemma user_green_accepts_witness :
  let w := world_of (rules [] ["tracker.com"] [] [] ["cdn.tracker.com"]) in
  let node := Some (CtxWindow site_frame) in
  ∃ w' win topWin,
    @shouldLoad platform TYPE_SCRIPT tracker_js node w = (w', Ok ACCEPT) ∧
    emitted w' = emitted w ++
      [mkEvent "usernoaction" (contextWindow node) (host tracker_js)] ∧
    clobbered w' = clobbered w ∧
    contextWindow node = WObject win ∧ win_top win = Some topWin ∧
    ledgerEntry w' (top_id topWin) (host tracker_js)
      = Some (JStr "usernoaction").
Proof.
  intros w node.
  apply (@user_green_accepts platform TYPE_SCRIPT tracker_js node w);
    first [compute_done | vm_compute; reflexivity | discriminate].
Defined.

Lemma decision_event_recorded_witness :
  ledgerEntry (emit_update_settings "userblock" (WObject site_frame)
                 "cdn.tracker.com" visited).1
    (top_id site_top) "cdn.tracker.com" = Some (JStr "userblock") ∧
  ∀ key origin,
    key ≠ top_id site_top ∨ origin ≠ "cdn.tracker.com" →
    ledgerEntry (emit_update_settings "userblock" (WObject site_frame)
                   "cdn.tracker.com" visited).1 key origin
      = ledgerEntry visited key origin.
Proof.
  apply (decision_event_recorded "userblock" site_frame site_top
           "cdn.tracker.com" visited);
    first [reflexivity | discriminate].
Defined.

Lemma decision_event_dropped_witness :
  let channel := WObject (mkWin 9 None) in
  updateSettingsListener "block" WNull "cdn.tracker.com" visited
    = (visited, Ok tt) ∧
  updateSettingsListener "block" channel "cdn.tracker.com" visited
    = (visited, Throw TypeError) ∧
  emit_update_settings "block" channel "cdn.tracker.com" visited =
    (set_emitted (λ l, l ++ [mkEvent "block" channel "cdn.tracker.com"])
       visited, Ok tt).
Proof.
  intros channel.
  destruct (decision_event_dropped "block" WNull "cdn.tracker.com" visited)
    as (Hnull & _ & _).
  destruct (decision_event_dropped "block" channel "cdn.tracker.com" visited)
    as (_ & Hraise & Hemit).
  split; [|split].
  - apply Hnull. left. reflexivity.
  - apply (Hraise (mkWin 9 None)); first [reflexivity | discriminate].
  - apply Hemit. right. right. exists (mkWin 9 None). split; reflexivity.
Defined.

Lemma shouldCookieblockRequest_table_witness :
  let w := world_of (rules ["cdn.tracker.com"] ["tracker.com"] [] [] []) in
  @getBaseDomain platform tracker_js ∈ blockedOrigins (storage w) ∧
  (@shouldCookieblockRequest platform tracker_js (WObject site_frame) w).2
    = Ok true ∧
  clobbered
    (@shouldCookieblockRequest platform tracker_js (WObject site_frame) w).1
    = clobbered w ++
        if bool_decide (host tracker_js ∈ userYellow (storage w)) then []
        else [host tracker_js].
Proof.
  intros w.
  assert (@getBaseDomain platform tracker_js ∈ blockedOrigins (storage w))
    as Hblocked by compute_done.
  split; [exact Hblocked|].
  apply (@shouldCookieblockRequest_table platform tracker_js
           (WObject site_frame) w).
  right. right. exact Hblocked.
Defined.

Lemma shouldBlockRequest_records_block_witness :
  let w := world_of (rules [] ["tracker.com"] [] [] ["cdn.tracker.com"]) in
  ∃ w',
    @shouldBlockRequest platform tracker_js (WObject site_frame) w
      = (w', Ok true) ∧
    emitted w' = emitted w ++
      [mkEvent "block" (WObject site_frame) (host tracker_js)] ∧
    ledgerEntry w' (top_id site_top) (host tracker_js)
      = Some (JStr "block").
Proof.
  intros w.
  apply (@shouldBlockRequest_records_block platform tracker_js site_frame
           site_top w);
    first [compute_done | reflexivity | discriminate].
Defined.

Lemma preloaded_unflagged_noaction_witness :
  let w := world_of (rules ["cdn.tracker.com"] [] [] [] []) in
  ∃ w',
    @shouldCookieblockRequest platform tracker_js (WObject site_frame) w
      = (w', Ok false) ∧
    emitted w' = emitted w ++
      [mkEvent "noaction" (WObject site_frame) (host tracker_js)] ∧
    clobbered w' = clobbered w ∧
    ledgerEntry w' (top_id site_top) (host tracker_js)
      = Some (JStr "noaction").
Proof.
  intros w.
  apply (@preloaded_unflagged_noaction platform tracker_js site_frame
           site_top w);
    first [left; compute_done | compute_done | reflexivity | discriminate].
Defined.

Lemma policy_changes_confined_witness :
  let w := world_of (rules [] ["tracker.com"] [] [] []) in
  let node := Some (CtxWindow site_frame) in
  ledgerEntry (@shouldLoad platform TYPE_SCRIPT tracker_js node w).1
    1 "cdn.tracker.com" ≠ ledgerEntry w 1 "cdn.tracker.com" ∧
  ("cdn.tracker.com" = host tracker_js ∧
   ∃ win topWin,
     (contextWindow node = WObject win ∨ WNull = WObject win) ∧
     win_top win = Some topWin ∧ 1%positive = top_id topWin).
Proof.
  intros w node.
  assert (ledgerEntry (@shouldLoad platform TYPE_SCRIPT tracker_js node w).1
            1 "cdn.tracker.com" ≠ ledgerEntry w 1 "cdn.tracker.com")
    as Hchanged by compute_done.
  split; [exact Hchanged|].
  apply (@policy_changes_confined platform TYPE_SCRIPT tracker_js node
           WNull w 1%positive "cdn.tracker.com").
  left. exact Hchanged.
Defined.

Lemma location_change_scope_witness :
  settingsMap (onLocationChange 0 site_frame visited).1 !! win_id site_win
    = settingsMap visited !! win_id site_win ∧
  onLocationChange LOCATION_CHANGE_SAME_DOCUMENT site_win visited
    = (visited, Ok tt).
Proof.
  split.
  - apply (location_change_scope 0 site_frame visited). discriminate.
  - apply (location_change_scope LOCATION_CHANGE_SAME_DOCUMENT site_win
             visited).
    reflexivity.
Defined.

Lemma frame_navigation_keeps_decision_witness :
  ∃ table,
    (getCurrentSettings site_win
       (onLocationChange 0 site_frame
          (emit_update_settings "block" (WObject site_frame)
             "cdn.tracker.com" (world_of (rules [] [] [] [] []))).1).1).2
      = Ok table ∧
    table !! "cdn.tracker.com" = Some (JStr "block").
Proof.
  apply (frame_navigation_keeps_decision "block" site_frame site_win
           site_top "cdn.tracker.com" 0 (world_of (rules [] [] [] [] [])));
    first [reflexivity | discriminate].
Defined.

Lemma handleUpdate_stages_witness :
  let w := mkWorld (rules [] [] [] [] []) ∅
             [("a.com", "block"); ("b.com", "noaction")] [] [] 0 in
  (NoDup (changedSettings (handleUpdate "a.com" "reset" w).1).*1 ∧
   (∀ action',
      ("a.com", action') ∈ changedSettings (handleUpdate "a.com" "reset" w).1
      ↔ action' = "reset") ∧
   (∀ origin' action',
      origin' ≠ "a.com" →
      (origin', action') ∈ changedSettings (handleUpdate "a.com" "reset" w).1
      ↔ (origin', action') ∈ changedSettings w)) ∧
  changedSettings (handleUpdate "__proto__" "block" w).1 = changedSettings w.
Proof.
  intros w.
  assert (NoDup (changedSettings w).*1) as Hnodup by compute_done.
  destruct (handleUpdate_stages "a.com" "reset" w Hnodup)
    as (Hkeys & Hown & Hother & _).
  destruct (handleUpdate_stages "__proto__" "block" w Hnodup)
    as (_ & _ & _ & Hproto).
  split; [split; [exact Hkeys|split; [|exact Hother]]|].
  - apply Hown. discriminate.
  - apply Hproto. reflexivity.
Defined.

Lemma onHide_effects_witness :
  let w := world_of (rules [] [] [] [] []) in
  let w1 := mkWorld (rules [] [] [] [] []) ∅ [("a.com", "block")] [] [] 0 in
  @onHide specUserStorage w = (w, Ok tt) ∧
  reloads (@onHide specUserStorage w1).1 = S (reloads w1) ∧
  storage (@onHide specUserStorage w1).1
    = @applySettings specUserStorage (changedSettings w1) (storage w1).
Proof.
  intros w w1. split.
  - apply (@onHide_effects specUserStorage w). reflexivity.
  - apply (@onHide_effects specUserStorage w1). discriminate.
Defined.

Lemma trim_length_witness :
  let str := "a-rather-long-subdomain.tracker.com" in
  Z.of_nat (String.length (_trim str 24))
    = Z.min (Z.of_nat (String.length str)) 24 ∧
  ((Z.of_nat (String.length str) < 24)%Z → _trim str 24 = str) ∧
  ((24 ≤ Z.of_nat (String.length str))%Z →
   _trim str 24
   = String.append (String.substring 0 (Z.to_nat (24 - 3)) str) "...").
Proof. intros str. apply (trim_length str 24). lia. Defined.

Lemma toggle_then_read_witness :
  let elt := originClicker "cdn.tracker.com" "userblock" in
  getCurrentClass (toggleBlockedStatus elt "noaction") = "noaction" ∧
  hasClass "userset" (toggleBlockedStatus elt "noaction") = true ∧
  data_origin (toggleBlockedStatus elt "noaction") = data_origin elt ∧
  data_original_action (toggleBlockedStatus elt "noaction")
    = data_original_action elt ∧
  (∀ c, c ∉ ["block"; "cookieblock"; "noaction"; "userset"] →
        hasClass c (toggleBlockedStatus elt "noaction") = hasClass c elt) ∧
  toggleBlockedStatus (toggleBlockedStatus elt "noaction") "noaction"
    = toggleBlockedStatus elt "noaction".
Proof.
  intros elt. apply (toggle_then_read elt "noaction"). compute_done.
Defined.

Lemma buildSettingsDict_entries_witness :
  let clickers :=
    [toggleBlockedStatus (originClicker "a.com" "userblock") "noaction";
     originClicker "b.com" "cookieblock";
     toggleBlockedStatus (originClicker "__proto__" "block") "noaction"] in
  (("a.com", "noaction") ∈ buildSettingsDict clickers ↔
   ∃ elt, elt ∈ clickers ∧ data_origin elt = "a.com" ∧
          hasClass "userset" elt = true ∧
          getCurrentClass elt = "noaction" ∧
          "noaction" ≠ data_original_action elt) ∧
  (("__proto__", "noaction") ∉ buildSettingsDict clickers) ∧
  (("a.com", "noaction") ∈ buildSettingsDict clickers →
   "noaction" ∈ ["block"; "cookieblock"; "noaction"]).
Proof.
  intros clickers.
  assert (NoDup (data_origin <$> clickers)) as Hnodup by compute_done.
  destruct (buildSettingsDict_entries clickers "a.com" "noaction" Hnodup)
    as (Hiff & Hproto & Htags).
  split; [|split; [exact Hproto|exact Htags]].
  apply Hiff. discriminate.
Defined.

Lemma toggle_then_build_witness :
  let elt := originClicker "cdn.tracker.com" "userblock" in
  buildSettingsDict [toggleBlockedStatus elt "cookieblock"] =
    if String.eqb "cookieblock" (data_original_action elt) then []
    else [(data_origin elt, "cookieblock")].
Proof.
  intros elt. apply (toggle_then_build elt "cookieblock");
    first [compute_done | discriminate].
Defined.

Lemma untouched_popup_stages_nothing_witness :
  let settings := [("a.com", "userblock"); ("b.com", "noaction");
                   ("c.com", "usercookieblock")] in
  (∀ origin tag, (origin, tag) ∈ settings →
     tag ∈ ["noaction"; "block"; "cookieblock";
            "usernoaction"; "userblock"; "usercookieblock"]) ∧
  buildSettingsDict ((λ ot, originClicker ot.1 ot.2) <$> settings) = [].
Proof.
  intros settings.
  assert (∀ origin tag, (origin, tag) ∈ settings →
     tag ∈ ["noaction"; "block"; "cookieblock";
            "usernoaction"; "userblock"; "usercookieblock"]) as Htags.
  { intros origin tag Hin. unfold settings in Hin.
    repeat (apply elem_of_cons in Hin as [[= _ ->]|Hin]; [compute_done|]).
    by apply elem_of_nil in Hin. }
  split; [exact Htags|].
  exact (untouched_popup_stages_nothing settings Htags).
Defined.

Lemma ledger_holds_decision_tags_witness :
  let node := Some (CtxWindow site_frame) in
  ledgerTagged visited ∧
  ledgerTagged
    (@shouldLoad platform TYPE_SCRIPT tracker_js node visited).1 ∧
  ledgerTagged
    (@shouldBlockRequest platform tracker_js (WObject site_frame) visited).1 ∧
  ledgerTagged
    (@shouldCookieblockRequest platform tracker_js (WObject site_frame)
       visited).1 ∧
  ledgerTagged (onLocationChange 0 site_win visited).1.
Proof.
  intros node.
  assert (ledgerTagged visited) as Htagged.
  { assert (ledgerTagged (world_of (rules [] ["tracker.com"] [] [] [])))
      as Hempty.
    { intros key origin v. unfold ledgerEntry. simpl.
      by rewrite lookup_empty. }
    exact (proj1 (@ledger_holds_decision_tags platform TYPE_SCRIPT
                    tracker_js node WNull 0 site_win _ Hempty)). }
  split; [exact Htagged|].
  exact (@ledger_holds_decision_tags platform TYPE_SCRIPT tracker_js node
           (WObject site_frame) 0 site_win visited Htagged).
Defined.

Lemma first_party_accepted_witness :
  let app_js := mkURI "https" "site.com" "https://site.com/app.js" in
  let w := world_of (rules [] [] ["site.com"] [] []) in
  host app_js ∈ userRed (storage w) ∧
  @shouldLoad platform TYPE_SCRIPT app_js (Some (CtxWindow site_frame)) w
    = (w, Ok ACCEPT).
Proof.
  intros app_js w. split; [compute_done|].
  apply (@first_party_accepted platform TYPE_SCRIPT app_js
           (Some (CtxWindow site_frame)) site_frame site_top
           "https://site.com/" w);
    first [reflexivity | vm_compute; reflexivity].
Defined.
